(** * Cache-aside item service (app.js): a shallow embedding

    The service of [app.js] is an Express application with five item
    routes and a health route.  Every route is an [async] function that
    talks to two external clients: the PostgreSQL pool [pgPool] and the
    Redis client [redis].  The embedding keeps that shape:

    - a route is a finite tree of client calls ([prog]): each node is
      one call on a client, and its continuation receives either the
      value the promise resolved to or the error it was rejected with;
    - [await], [try]/[catch] and [Promise.all] are combinators on such
      trees;
    - the clients are not part of the program: a run of a tree is taken
      against an arbitrary environment ([step]), exactly as the jest test
      suites run the routes against mocked clients, and it yields the
      ordered list of calls that were made, the outcome, and the final
      state of the environment.

    Two environments are given after the routes: the reply queues of
    the jest mocks, and an in-memory Redis and PostgreSQL with a fault
    schedule.  The properties of the coordinator and of the routes are
    stated for every environment; the two given ones supply concrete
    runs.  The statement that creates the table at start-up belongs to
    no route and is left out. *)

From Stdlib Require Import ZArith NArith Ascii String Lia.
From stdpp Require Import base option list strings gmap pretty.

Local Open Scope string_scope.
Local Open Scope list_scope.
Local Open Scope Z_scope.

(** ** JavaScript values *)

(** The values that flow through the routes are JSON values: request
    bodies (parsed by [express.json()]), rows returned by the driver and
    whatever [JSON.parse] yields.  Numbers are restricted to integers
    (ids are SERIAL integers; no route computes with numbers).  A
    [Date], which the driver builds for a timestamp column, has no
    constructor of its own: a row stands as the JSON data it
    serializes to, so what is said of a value that went through the
    cache is said of its serialization. *)
#[warnings="-register-all"]
Inductive value : Type :=
| JNull
| JBool (b : bool)
| JNum (n : Z)
| JStr (s : string)
| JArr (vs : list value)
| JObj (fields : list (string * value)).

(** A JavaScript expression may also evaluate to [undefined] (a missing
    body field, [rows[0]] of an empty array): [None] stands for it. *)
Abbreviation jsval := (option value).
Abbreviation undefined := (@None value).

(** ToBoolean on JSON values: [null], [false], [0] and the empty string
    are falsy, every array and object is truthy. *)
Definition truthy (v : value) : bool :=
  match v with
  | JNull => false
  | JBool b => b
  | JNum n => negb (n =? 0)
  | JStr s => negb (String.eqb s "")
  | JArr _ => true
  | JObj _ => true
  end.

(** ToBoolean on a possibly undefined value. *)
Definition truthy' (x : jsval) : bool :=
  match x with
  | Some v => truthy v
  | None => false
  end.

(** [x || d] where [d] is a defined value. *)
Definition js_or (x : jsval) (d : value) : value :=
  match x with
  | Some v => if truthy v then v else d
  | None => d
  end.

(** Property read [o.k] on the field list of an object; the first
    binding of a key is the one that counts. *)
Fixpoint field (k : string) (fields : list (string * value)) : jsval :=
  match fields with
  | [] => undefined
  | (k', v) :: rest => if String.eqb k k' then Some v else field k rest
  end.

(** Property read [v.k] on a value; only an object has properties. *)
Definition prop (k : string) (v : value) : jsval :=
  match v with
  | JObj fields => field k fields
  | _ => undefined
  end.

(** Errors thrown or carried by rejected promises.  [BackendError] is
    whatever a client rejects with; [SyntaxError] is what [JSON.parse]
    throws; [TypeError] is what destructuring [undefined] or [null]
    throws. *)
Inductive exn : Type :=
| BackendError (message : string)
| SyntaxError (message : string)
| TypeError (message : string).

Definition message (e : exn) : string :=
  match e with
  | BackendError m => m
  | SyntaxError m => m
  | TypeError m => m
  end.

(** ** JSON.stringify and JSON.parse *)

(** The two built-ins are modelled on the fragment above: strings are
    byte strings (UTF-8 passes through unchanged), numbers are integers
    printed in decimal, and the members of an object keep their order.
    Keys are unique in a well-formed field list.

    [parse] reads every text that [stringify] writes for a [value]
    ([parse_stringify] below).  On other texts it is narrower than the
    built-in: a number with a fraction or an exponent and an escaped
    surrogate pair are rejected, a repeated key is kept twice, and an
    integer is never rounded.  The properties of the routes that
    mention [parse] are stated for whatever it returns. *)
Module JSON.

Definition dquote : ascii := ascii_of_N 34.
Definition backslash : ascii := ascii_of_N 92.

Definition hex_digit (n : N) : ascii :=
  if (n <? 10)%N then ascii_of_N (48 + n) else ascii_of_N (87 + n).

(** QuoteJSONString, one code unit at a time. *)
Definition escape (c : ascii) : string :=
  let n := N_of_ascii c in
  if (n =? 8)%N then String backslash "b"
  else if (n =? 9)%N then String backslash "t"
  else if (n =? 10)%N then String backslash "n"
  else if (n =? 12)%N then String backslash "f"
  else if (n =? 13)%N then String backslash "r"
  else if (n =? 34)%N then String backslash (String dquote "")
  else if (n =? 92)%N then String backslash (String backslash "")
  else if (n <? 32)%N then
    String backslash
      (String "u" (String "0" (String "0"
         (String (hex_digit (n / 16)) (String (hex_digit (n mod 16)) "")))))
  else String c "".

Fixpoint escape_all (s : string) : string :=
  match s with
  | EmptyString => EmptyString
  | String c rest => escape c +:+ escape_all rest
  end.

Definition quote (s : string) : string :=
  String dquote (escape_all s +:+ String dquote "").

(** The parts joined by commas. *)
Fixpoint commas (parts : list string) : string :=
  match parts with
  | [] => ""
  | p :: ps =>
    match ps with
    | [] => p
    | _ :: _ => p +:+ "," +:+ commas ps
    end
  end.

(** [JSON.stringify(v)] *)
Fixpoint stringify (v : value) : string :=
  match v with
  | JNull => "null"
  | JBool true => "true"
  | JBool false => "false"
  | JNum n => pretty n
  | JStr s => quote s
  | JArr vs => "[" +:+ commas (map stringify vs) +:+ "]"
  | JObj fields =>
    "{" +:+ commas (map (fun kv => quote (fst kv) +:+ ":" +:+ stringify (snd kv)) fields)
        +:+ "}"
  end.

(** *** Parsing *)

Definition is_ws (c : ascii) : bool :=
  let n := N_of_ascii c in
  ((n =? 32) || (n =? 9) || (n =? 10) || (n =? 13))%N.

Fixpoint skip_ws (s : string) : string :=
  match s with
  | String c rest => if is_ws c then skip_ws rest else s
  | EmptyString => s
  end.

(** [strip p s] is what follows the prefix [p] of [s]. *)
Fixpoint strip (p s : string) : option string :=
  match p, s with
  | EmptyString, _ => Some s
  | String a p', String b s' => if Ascii.eqb a b then strip p' s' else None
  | String _ _, EmptyString => None
  end.

Definition digit (c : ascii) : option Z :=
  let n := N_of_ascii c in
  if ((48 <=? n) && (n <=? 57))%N then Some (Z.of_N (n - 48)) else None.

Fixpoint digits (acc : Z) (s : string) : Z * string :=
  match s with
  | String c rest =>
    match digit c with
    | Some d => digits (10 * acc + d) rest
    | None => (acc, s)
    end
  | EmptyString => (acc, s)
  end.

(** The integer part of a number: [0] alone, or a non-zero digit and
    more digits. *)
Definition parse_nat (s : string) : option (Z * string) :=
  match s with
  | String c rest =>
    match digit c with
    | Some 0 => Some (0, rest)
    | Some d => Some (digits d rest)
    | None => None
    end
  | EmptyString => None
  end.

(** A fraction or an exponent is outside the integer fragment. *)
Definition integral (rest : string) : bool :=
  match rest with
  | String c _ =>
    let n := N_of_ascii c in negb ((n =? 46) || (n =? 101) || (n =? 69))%N
  | EmptyString => true
  end.

Definition parse_int (s : string) : option (Z * string) :=
  '(n, rest) ← match s with
               | String c s' =>
                 if (N_of_ascii c =? 45)%N
                 then '(n, rest) ← parse_nat s'; Some (- n, rest)
                 else parse_nat s
               | EmptyString => None
               end;
  if integral rest then Some (n, rest) else None.

Definition hex_val (c : ascii) : option N :=
  let n := N_of_ascii c in
  if ((48 <=? n) && (n <=? 57))%N then Some (n - 48)%N
  else if ((97 <=? n) && (n <=? 102))%N then Some (n - 87)%N
  else if ((65 <=? n) && (n <=? 70))%N then Some (n - 55)%N
  else None.

(** UTF-8 bytes of a code point of the basic plane; surrogates have
    none. *)
Definition utf8 (cp : N) : option string :=
  if (cp <? 128)%N then Some (String (ascii_of_N cp) "")
  else if (cp <? 2048)%N then
    Some (String (ascii_of_N (192 + cp / 64))
            (String (ascii_of_N (128 + cp mod 64)) ""))
  else if ((55296 <=? cp) && (cp <? 57344))%N then None
  else
    Some (String (ascii_of_N (224 + cp / 4096))
            (String (ascii_of_N (128 + (cp / 64) mod 64))
               (String (ascii_of_N (128 + cp mod 64)) ""))).

Definition unescape (c : ascii) : option ascii :=
  let n := N_of_ascii c in
  if (n =? 34)%N then Some dquote
  else if (n =? 92)%N then Some backslash
  else if (n =? 47)%N then Some "/"%char
  else if (n =? 98)%N then Some (ascii_of_N 8)
  else if (n =? 102)%N then Some (ascii_of_N 12)
  else if (n =? 110)%N then Some (ascii_of_N 10)
  else if (n =? 114)%N then Some (ascii_of_N 13)
  else if (n =? 116)%N then Some (ascii_of_N 9)
  else None.

(** The characters of a string literal up to its closing quote. *)
Fixpoint parse_chars (s : string) : option (string * string) :=
  match s with
  | EmptyString => None
  | String c rest =>
    let n := N_of_ascii c in
    if (n =? 34)%N then Some ("", rest)
    else if (n =? 92)%N then
      match rest with
      | String e rest' =>
        if (N_of_ascii e =? 117)%N then
          match rest' with
          | String h1 (String h2 (String h3 (String h4 rest''))) =>
            a ← hex_val h1; b ← hex_val h2; c ← hex_val h3; d ← hex_val h4;
            bytes ← utf8 (((a * 16 + b) * 16 + c) * 16 + d)%N;
            '(str, r) ← parse_chars rest'';
            Some (bytes +:+ str, r)
          | _ => None
          end
        else
          ch ← unescape e;
          '(str, r) ← parse_chars rest';
          Some (String ch str, r)
      | EmptyString => None
      end
    else if (n <? 32)%N then None
    else '(str, r) ← parse_chars rest; Some (String c str, r)
  end.

Fixpoint parse_value (fuel : nat) (s : string) : option (value * string) :=
  match fuel with
  | O => None
  | S fuel' =>
    match skip_ws s with
    | EmptyString => None
    | String c rest as s' =>
      let n := N_of_ascii c in
      if (n =? 110)%N then r ← strip "null" s'; Some (JNull, r)
      else if (n =? 116)%N then r ← strip "true" s'; Some (JBool true, r)
      else if (n =? 102)%N then r ← strip "false" s'; Some (JBool false, r)
      else if (n =? 34)%N then '(str, r) ← parse_chars rest; Some (JStr str, r)
      else if (n =? 91)%N then
        match skip_ws rest with
        | String c2 rest2 =>
          if (N_of_ascii c2 =? 93)%N then Some (JArr [], rest2)
          else '(vs, r) ← parse_elements fuel' rest; Some (JArr vs, r)
        | EmptyString => None
        end
      else if (n =? 123)%N then
        match skip_ws rest with
        | String c2 rest2 =>
          if (N_of_ascii c2 =? 125)%N then Some (JObj [], rest2)
          else '(kvs, r) ← parse_members fuel' rest; Some (JObj kvs, r)
        | EmptyString => None
        end
      else '(z, r) ← parse_int s'; Some (JNum z, r)
    end
  end
with parse_elements (fuel : nat) (s : string) : option (list value * string) :=
  match fuel with
  | O => None
  | S fuel' =>
    '(v, r) ← parse_value fuel' s;
    match skip_ws r with
    | String c rest =>
      if (N_of_ascii c =? 44)%N then
        '(vs, r') ← parse_elements fuel' rest; Some (v :: vs, r')
      else if (N_of_ascii c =? 93)%N then Some ([v], rest)
      else None
    | EmptyString => None
    end
  end
with parse_members (fuel : nat) (s : string)
  : option (list (string * value) * string) :=
  match fuel with
  | O => None
  | S fuel' =>
    match skip_ws s with
    | String q rest =>
      if (N_of_ascii q =? 34)%N then
        '(k, r) ← parse_chars rest;
        match skip_ws r with
        | String c r2 =>
          if (N_of_ascii c =? 58)%N then
            '(v, r3) ← parse_value fuel' r2;
            match skip_ws r3 with
            | String c3 r4 =>
              if (N_of_ascii c3 =? 44)%N then
                '(kvs, r5) ← parse_members fuel' r4; Some ((k, v) :: kvs, r5)
              else if (N_of_ascii c3 =? 125)%N then Some ([(k, v)], r4)
              else None
            | EmptyString => None
            end
          else None
        | EmptyString => None
        end
      else None
    | EmptyString => None
    end
  end.

(** [JSON.parse(text)]: the value, or the SyntaxError it throws.  The
    recursion on arrays and objects is bounded by the length of the
    text; the bound is enough for every serialized value (see
    [parse_stringify] below). *)
Definition parse (text : string) : exn + value :=
  match parse_value (2 * String.length text + 2) text with
  | Some (v, rest) =>
    match skip_ws rest with
    | EmptyString => inr v
    | String _ _ => inl (SyntaxError "Unexpected non-whitespace character after JSON")
    end
  | None => inl (SyntaxError "Unexpected token in JSON")
  end.

(** *** Notions used to relate the two functions *)

(** What may follow a value inside a text: the end, a comma, or a
    closing bracket or brace. *)
Definition stops (rest : string) : Prop :=
  match rest with
  | EmptyString => True
  | String c _ => c = ","%char ∨ c = "]"%char ∨ c = "}"%char
  end.

(** The first character of a serialized value: no white space, and no
    closing bracket or brace. *)
Definition opens (c : ascii) : Prop :=
  is_ws c = false
  ∧ (N_of_ascii c =? 93)%N = false
  ∧ (N_of_ascii c =? 125)%N = false.

(** The fuel that reading a value back takes. *)
Fixpoint weight (v : value) : nat :=
  match v with
  | JArr vs => S (foldr (λ e acc, S (weight e + acc)) 0%nat vs)
  | JObj fields => S (foldr (λ kv acc, S (weight kv.2 + acc)) 0%nat fields)
  | _ => 1%nat
  end.

Definition reads_back (v : value) : Prop :=
  ∀ (fuel : nat) (rest : string),
    (weight v ≤ fuel)%nat → stops rest →
    parse_value fuel (stringify v +:+ rest) = Some (v, rest).

(** The text of one member of an object. *)
Definition member (kv : string * value) : string :=
  quote kv.1 +:+ ":" +:+ stringify kv.2.

End JSON.

(** ** The clients and the programs that call them *)

(** The statements sent through [pgPool.query], one constructor per
    SQL text of app.js:
    - [SELECT_1]: [SELECT 1] (health);
    - [SELECT_items]: [SELECT id, name, description, created_at FROM
      items ORDER BY created_at DESC];
    - [INSERT_item]: [INSERT INTO items (name, description) VALUES ($1,
      $2) RETURNING id, name, description, created_at];
    - [SELECT_item]: [SELECT id, name, description, created_at FROM
      items WHERE id = $1];
    - [UPDATE_item]: [UPDATE items SET name = $1, description = $2 WHERE
      id = $3 RETURNING id, name, description, created_at];
    - [DELETE_item]: [DELETE FROM items WHERE id = $1]. *)
Inductive sql : Type :=
| SELECT_1
| SELECT_items
| INSERT_item
| SELECT_item
| UPDATE_item
| DELETE_item.

(** What the driver resolves a query with. *)
Record QueryResult : Type := { rows : list value; rowCount : Z }.

(** One call on a client.  [redis_set key v ttl] is
    [redis.set(key, v, 'EX', ttl)]. *)
Inductive op : Type :=
| redis_get (key : string)
| redis_set (key : string) (v : string) (ttlSeconds : Z)
| redis_del (key : string)
| redis_ping
| pg_query (text : sql) (params : list jsval).

(** The type of the value a call's promise resolves to; [redis.get]
    resolves to [null] ([None]) for a key that is not there. *)
Definition reply (o : op) : Type :=
  match o with
  | redis_get _ => option string
  | redis_set _ _ _ => string
  | redis_del _ => Z
  | redis_ping => string
  | pg_query _ _ => QueryResult
  end.

(** An async function body: it returns, throws, calls a client and goes
    on with the settled promise, or writes to [console.error]. *)
Inductive prog (A : Type) : Type :=
| Ret (a : A)
| Throw (e : exn)
| Call (o : op) (k : exn + reply o → prog A)
| Log (label : string) (e : exn) (k : prog A).

Arguments Ret {A} a.
Arguments Throw {A} e.
Arguments Call {A} o k.
Arguments Log {A} label e k.

Fixpoint bind {A B : Type} (p : prog A) (f : A → prog B) : prog B :=
  match p with
  | Ret a => f a
  | Throw e => Throw e
  | Call o k => Call o (λ r, bind (k r) f)
  | Log l e k => Log l e (bind k f)
  end.

#[global] Instance prog_ret : MRet prog := @Ret.
#[global] Instance prog_bind : MBind prog := λ A B f p, bind p f.

(** [try { p } catch (err) { h err }] *)
Fixpoint try_catch {A : Type} (p : prog A) (h : exn → prog A) : prog A :=
  match p with
  | Ret a => Ret a
  | Throw e => h e
  | Call o k => Call o (λ r, try_catch (k r) h)
  | Log l e k => Log l e (try_catch k h)
  end.

(** [await client.call(...)]: a rejection is thrown at the [await]. *)
Definition await (o : op) : prog (reply o) :=
  Call o (λ r, match r with inl e => Throw e | inr v => Ret v end).

(** A value or the error thrown while computing it. *)
Definition lift {A : Type} (r : exn + A) : prog A :=
  match r with
  | inl e => Throw e
  | inr a => Ret a
  end.

(** [await Promise.all([c1, ..., cn])] where no result is used: the
    array literal issues every call before anything is awaited; the
    [await] then throws if one of them was rejected.  The rejection
    reported is the first in array order (the routes only log it). *)
Fixpoint issue (calls : list op) (rejected : option exn) : prog unit :=
  match calls with
  | [] => match rejected with Some e => Throw e | None => Ret tt end
  | o :: calls' =>
    Call o (λ r, issue calls'
                   match rejected, r with
                   | None, inl e => Some e
                   | _, _ => rejected
                   end)
  end.

Definition Promise_all (calls : list op) : prog unit := issue calls None.

(** ** app.js *)

(** ToBoolean of what [redis.get] resolved to: the text when it is
    truthy; [null] and the empty text are falsy. *)
Definition present (cached : option string) : option string :=
  match cached with
  | Some text => if String.eqb text "" then None else Some text
  | None => None
  end.

(** [cacheOrFetch(key, fetchFn, ttlSeconds = 60)]; both callers pass
    [ttlSeconds]. *)
Definition cacheOrFetch (key : string) (fetchFn : prog value) (ttlSeconds : Z)
  : prog value :=
  cached ← await (redis_get key);
  match present cached with
  | Some text => lift (JSON.parse text)
  | None =>
    result ← fetchFn;
    _ ← await (redis_set key (JSON.stringify result) ttlSeconds);
    Ret result
  end.

(** What a route answers: [res.status(s).json(b)], or
    [res.status(s).end()] with no body. *)
Record response : Type := { status : Z; body : jsval }.

Definition res_json (s : Z) (b : jsval) : response := {| status := s; body := b |}.
Definition res_end (s : Z) : response := {| status := s; body := undefined |}.

(** [{ error: msg }] *)
Definition error (msg : string) : jsval := Some (JObj [("error", JStr msg)]).

(** The 400 message has the word name between double quotes. *)
Definition name_required : string :=
  "Pole " +:+ String JSON.dquote ("name" +:+ String JSON.dquote " jest wymagane").

(** [app.get('/health', ...)] *)
Definition get_health : prog response :=
  try_catch
    (_ ← await (pg_query SELECT_1 []);
     _ ← await redis_ping;
     Ret (res_json 200
            (Some (JObj [("status", JStr "OK"); ("postgres", JStr "reachable");
                         ("redis", JStr "reachable")]))))
    (λ err,
       Log "Błąd health check:" err
         (Ret (res_json 500
                 (Some (JObj [("status", JStr "ERROR");
                              ("error", JStr (message err))]))))).

(** The fetch function of the list route:
    [async () => { const { rows } = await pgPool.query(...); return rows; }] *)
Definition fetch_all : prog value :=
  r ← await (pg_query SELECT_items []);
  Ret (JArr (rows r)).

(** [app.get('/items', ...)] *)
Definition get_items : prog response :=
  try_catch
    (items ← cacheOrFetch "items:all" fetch_all 30;
     Ret (res_json 200 (Some items)))
    (λ err,
       Log "GET /items error:" err
         (Ret (res_json 500 (error "Nie udało się pobrać listy itemów")))).

(** [app.post('/items', ...)] from line 99 on; [body] is the field list
    of a [req.body] that line 98 could destructure.  The handler from
    its first line, for any [req.body], is [post_items_handler]
    below. *)
Definition post_items (body : list (string * value)) : prog response :=
  let name := field "name" body in
  let description := field "description" body in
  if negb (truthy' name) then Ret (res_json 400 (error name_required))
  else
    try_catch
      (r ← await (pg_query INSERT_item [name; Some (js_or description JNull)]);
       _ ← await (redis_del "items:all");
       Ret (res_json 201 (rows r !! 0%nat)))
      (λ err,
         Log "POST /items error:" err
           (Ret (res_json 500 (error "Nie udało się utworzyć nowego itemu")))).

(** The fetch function of the detail route:
    [async () => { const { rows } = await pgPool.query(..., [id]);
                   return rows[0] || null; }] *)
Definition fetch_one (id : string) : prog value :=
  r ← await (pg_query SELECT_item [Some (JStr id)]);
  Ret (js_or (rows r !! 0%nat) JNull).

(** [app.get('/items/:id', ...)]; [id] is [req.params.id]. *)
Definition get_item (id : string) : prog response :=
  try_catch
    (let cacheKey := "items:" +:+ id in
     item ← cacheOrFetch cacheKey (fetch_one id) 60;
     if negb (truthy item) then Ret (res_json 404 (error "Item nie znaleziony"))
     else Ret (res_json 200 (Some item)))
    (λ err,
       Log ("GET /items/" +:+ id +:+ " error:") err
         (Ret (res_json 500 (error "Nie udało się pobrać itemu")))).

(** [app.put('/items/:id', ...)] from line 144 on, for the field list
    of a [req.body] that line 143 could destructure; the handler from
    its first line is [put_item_handler] below. *)
Definition put_item (id : string) (body : list (string * value)) : prog response :=
  let name := field "name" body in
  let description := field "description" body in
  if negb (truthy' name) then Ret (res_json 400 (error name_required))
  else
    try_catch
      (r ← await (pg_query UPDATE_item
                    [name; Some (js_or description JNull); Some (JStr id)]);
       if (Z.of_nat (length (rows r)) =? 0) then
         Ret (res_json 404 (error "Item nie istnieje"))
       else
         _ ← Promise_all [redis_del "items:all"; redis_del ("items:" +:+ id)];
         Ret (res_json 200 (rows r !! 0%nat)))
      (λ err,
         Log ("PUT /items/" +:+ id +:+ " error:") err
           (Ret (res_json 500 (error "Nie udało się zaktualizować itemu")))).

(** [app.delete('/items/:id', ...)] *)
Definition delete_item (id : string) : prog response :=
  try_catch
    (r ← await (pg_query DELETE_item [Some (JStr id)]);
     if (rowCount r =? 0) then Ret (res_json 404 (error "Item nie znaleziony"))
     else
       _ ← Promise_all [redis_del "items:all"; redis_del ("items:" +:+ id)];
       Ret (res_end 204))
    (λ err,
       Log ("DELETE /items/" +:+ id +:+ " error:") err
         (Ret (res_json 500 (error "Nie udało się usunąć itemu")))).

(** [req.body] is [undefined] when no parser has read a body, and may
    be any JSON value otherwise. *)
Definition nullish (b : jsval) : bool :=
  match b with
  | None => true
  | Some JNull => true
  | Some _ => false
  end.

(** [const { name, description } = req.body]: destructuring throws a
    TypeError when the body is [undefined] or [null]; on any other
    value the names are read as properties, which only an object
    has. *)
Definition destructure (b : jsval) : exn + list (string * value) :=
  match b with
  | None =>
    inl (TypeError
           "Cannot destructure property 'name' of 'req.body' as it is undefined.")
  | Some JNull =>
    inl (TypeError
           "Cannot destructure property 'name' of 'req.body' as it is null.")
  | Some (JObj fields) => inr fields
  | Some _ => inr []
  end.

(** [app.post('/items', ...)] from its first line: the destructuring
    of line 98 is outside the [try]. *)
Definition post_items_handler (req_body : jsval) : prog response :=
  body ← lift (destructure req_body);
  post_items body.

(** [app.put('/items/:id', ...)] from its first line: the destructuring
    of line 143 is outside the [try]. *)
Definition put_item_handler (id : string) (req_body : jsval) : prog response :=
  body ← lift (destructure req_body);
  put_item id body.

(** ** Running a program against an environment *)

(** What a run leaves behind, in order: the calls made on the clients
    and the lines written to [console.error]. *)
Inductive event : Type :=
| Called (o : op)
| Logged (label : string) (e : exn).

Section Run.

(** The environment: a state [W] and, for each call, how the promise
    settles ([inl] rejected, [inr] resolved) and the state after it. *)
Context {W : Type}.
Variable step : ∀ o : op, W → (exn + reply o) * W.

Fixpoint run {A : Type} (p : prog A) (w : W) : list event * (exn + A) * W :=
  match p with
  | Ret a => ([], inr a, w)
  | Throw e => ([], inl e, w)
  | Call o k =>
    let '(tr, res, w') := run (k (step o w).1) (step o w).2 in
    (Called o :: tr, res, w')
  | Log l e k =>
    let '(tr, res, w') := run k w in
    (Logged l e :: tr, res, w')
  end.

(** The parts of a run. *)
Definition trace {A : Type} (p : prog A) (w : W) : list event := (run p w).1.1.
Definition outcome {A : Type} (p : prog A) (w : W) : exn + A := (run p w).1.2.
Definition after {A : Type} (p : prog A) (w : W) : W := (run p w).2.

End Run.

(** The calls of a trace that reach the store, write to the cache, or
    delete from it. *)
Definition is_query (ev : event) : bool :=
  match ev with Called (pg_query _ _) => true | _ => false end.
Definition is_set (ev : event) : bool :=
  match ev with Called (redis_set _ _ _) => true | _ => false end.
Definition is_del (ev : event) : bool :=
  match ev with Called (redis_del _) => true | _ => false end.

Fixpoint count (f : event → bool) (tr : list event) : nat :=
  match tr with
  | [] => 0%nat
  | ev :: tr' => ((if f ev then 1 else 0) + count f tr')%nat
  end.

(** Whether a promise was fulfilled: a query that resolved has been
    committed by the store, a rejected one has not. *)
Definition resolved {A : Type} (r : exn + A) : bool :=
  match r with
  | inr _ => true
  | inl _ => false
  end.

(** The lines written to [console.error], the reads of the cache and
    the statements that change the table. *)
Definition is_log (ev : event) : bool :=
  match ev with Logged _ _ => true | _ => false end.
Definition is_get (ev : event) : bool :=
  match ev with Called (redis_get _) => true | _ => false end.
Definition is_mutation (ev : event) : bool :=
  match ev with
  | Called (pg_query INSERT_item _)
  | Called (pg_query UPDATE_item _)
  | Called (pg_query DELETE_item _) => true
  | _ => false
  end.

(** The key of a call on the cache. *)
Definition cache_key (ev : event) : option string :=
  match ev with
  | Called (redis_get k) => Some k
  | Called (redis_set k _ _) => Some k
  | Called (redis_del k) => Some k
  | _ => None
  end.

(** The bodies of the health route. *)
Definition health_ok : jsval :=
  Some (JObj [("status", JStr "OK"); ("postgres", JStr "reachable");
              ("redis", JStr "reachable")]).
Definition health_error (err : exn) : jsval :=
  Some (JObj [("status", JStr "ERROR"); ("error", JStr (message err))]).

(** ** The mocked clients of the test suites *)

(** The suites replace both clients by jest mocks.  Each mocked method
    answers from a queue of scripted replies ([mockResolvedValueOnce],
    [mockRejectedValueOnce]) and, when its queue is empty, with the
    default of the health suite: [get] resolves to [null], [set] to
    ['OK'], [del] to [1], [ping] to ['PONG'] and [query] to
    [{ rows: [], rowCount: 0 }]. *)
Module Mock.

Record mocks : Type := {
  get_once : list (exn + option string);
  set_once : list (exn + string);
  del_once : list (exn + Z);
  ping_once : list (exn + string);
  query_once : list (exn + QueryResult)
}.

Definition fresh : mocks :=
  {| get_once := []; set_once := []; del_once := []; ping_once := [];
     query_once := [] |}.

Definition next {A : Type} (queue : list (exn + A)) (default : A)
  : (exn + A) * list (exn + A) :=
  match queue with
  | r :: rest => (r, rest)
  | [] => (inr default, [])
  end.

Definition step (o : op) (m : mocks) : (exn + reply o) * mocks :=
  match o return (exn + reply o) * mocks with
  | redis_get _ =>
    let '(r, q) := next (get_once m) None in
    (r, {| get_once := q; set_once := set_once m; del_once := del_once m;
           ping_once := ping_once m; query_once := query_once m |})
  | redis_set _ _ _ =>
    let '(r, q) := next (set_once m) "OK" in
    (r, {| get_once := get_once m; set_once := q; del_once := del_once m;
           ping_once := ping_once m; query_once := query_once m |})
  | redis_del _ =>
    let '(r, q) := next (del_once m) 1 in
    (r, {| get_once := get_once m; set_once := set_once m; del_once := q;
           ping_once := ping_once m; query_once := query_once m |})
  | redis_ping =>
    let '(r, q) := next (ping_once m) "PONG" in
    (r, {| get_once := get_once m; set_once := set_once m; del_once := del_once m;
           ping_once := q; query_once := query_once m |})
  | pg_query _ _ =>
    let '(r, q) := next (query_once m) {| rows := []; rowCount := 0 |} in
    (r, {| get_once := get_once m; set_once := set_once m; del_once := del_once m;
           ping_once := ping_once m; query_once := q |})
  end.

(** A client that is down: the rejection of every call. *)
Definition down : exn := BackendError "connect ECONNREFUSED".

End Mock.

(** ** An in-memory Redis and PostgreSQL *)

(** A reference environment: the cache is a finite map from keys to a
    text and its expiry time, the store is the [items] table of the
    [CREATE TABLE] statement of app.js, and each client has a fault
    schedule (the n-th call on the client is rejected when the n-th
    entry is [true]; nothing is rejected once the schedule is used up). *)
Module Mem.

Record item : Type := {
  item_id : Z;
  item_name : string;
  item_description : option string;
  item_created_at : Z
}.

Record world : Type := {
  cache : gmap string (string * Z);
  table : list item;
  serial : Z;
  now : Z;
  redis_faults : list bool;
  pg_faults : list bool
}.

(** *** Timestamps: [Date.prototype.toISOString] of epoch seconds *)

Definition pad (width : nat) (n : Z) : string :=
  let s := pretty n in
  String.string_of_list_ascii
    (replicate (width - String.length s) "0"%char) +:+ s.

Definition iso8601 (t : Z) : string :=
  let days := t / 86400 in
  let secs := t mod 86400 in
  let z := days + 719468 in
  let era := z / 146097 in
  let doe := z - era * 146097 in
  let yoe := (doe - doe / 1460 + doe / 36524 - doe / 146096) / 365 in
  let doy := doe - (365 * yoe + yoe / 4 - yoe / 100) in
  let mp := (5 * doy + 2) / 153 in
  let d := doy - (153 * mp + 2) / 5 + 1 in
  let m := if mp <? 10 then mp + 3 else mp - 9 in
  let y := yoe + era * 400 + (if m <=? 2 then 1 else 0) in
  pad 4 y +:+ "-" +:+ pad 2 m +:+ "-" +:+ pad 2 d +:+ "T" +:+
  pad 2 (secs / 3600) +:+ ":" +:+ pad 2 (secs mod 3600 / 60) +:+ ":" +:+
  pad 2 (secs mod 60) +:+ ".000Z".

(** The row object the driver builds for an item, as JSON data:
    [created_at], which the driver hands over as a [Date], stands as
    the ISO text that [JSON.stringify] and [res.json] write for it.
    The routes pass a row on and never read this field. *)
Definition row (it : item) : value :=
  JObj [("id", JNum (item_id it));
        ("name", JStr (item_name it));
        ("description",
         match item_description it with Some d => JStr d | None => JNull end);
        ("created_at", JStr (iso8601 (item_created_at it)))].

(** *** Query parameters *)

Definition escapeElement (s : string) : string :=
  let fix go (s : string) : string :=
      match s with
      | EmptyString => EmptyString
      | String c rest =>
        if ((N_of_ascii c =? 34) || (N_of_ascii c =? 92))%N
        then String JSON.backslash (String c (go rest))
        else String c (go rest)
      end in
  String JSON.dquote (go s +:+ String JSON.dquote "").

(** The driver's text form of a parameter; [None] is SQL NULL. *)
Fixpoint prepareValue (v : value) : option string :=
  match v with
  | JNull => None
  | JBool b => Some (if b then "true" else "false")
  | JNum n => Some (pretty n)
  | JStr s => Some s
  | JArr vs =>
    Some ("{" +:+
          JSON.commas
            (map (λ x, match x with
                       | JNull => "NULL"
                       | JArr _ => default "" (prepareValue x)
                       | _ => escapeElement (default "" (prepareValue x))
                       end) vs) +:+ "}")
  | JObj _ => Some (JSON.stringify v)
  end.

Definition param (p : jsval) : option string := p ≫= prepareValue.

Definition is_space (c : ascii) : bool :=
  let n := N_of_ascii c in ((n =? 32) || ((9 <=? n) && (n <=? 13)))%N.

Fixpoint skip_space (s : string) : string :=
  match s with
  | String c rest => if is_space c then skip_space rest else s
  | EmptyString => s
  end.

(** The server's reading of a text as an [integer]. *)
Definition int4in (s : string) : option Z :=
  let s := skip_space s in
  let '(sign, s) :=
      match s with
      | String c rest =>
        if (N_of_ascii c =? 45)%N then (-1, rest)
        else if (N_of_ascii c =? 43)%N then (1, rest)
        else (1, s)
      | EmptyString => (1, s)
      end in
  match s with
  | String c _ =>
    match JSON.digit c with
    | Some _ =>
      let '(n, rest) := JSON.digits 0 s in
      match skip_space rest with
      | EmptyString =>
        let i := sign * n in
        if (-2147483648 <=? i) && (i <=? 2147483647) then Some i else None
      | String _ _ => None
      end
    | None => None
    end
  | EmptyString => None
  end.

(** *** The statements *)

Fixpoint insert_desc (x : item) (l : list item) : list item :=
  match l with
  | [] => [x]
  | y :: l' =>
    if item_created_at y <? item_created_at x then x :: l
    else y :: insert_desc x l'
  end.

(** [ORDER BY created_at DESC] *)
Definition newest_first (l : list item) : list item := foldr insert_desc [] l.

Definition has_id (i : Z) (it : item) : bool := item_id it =? i.

Definition result (its : list item) : QueryResult :=
  {| rows := map row its; rowCount := Z.of_nat (length its) |}.

Definition set_store (t : list item) (s : Z) (w : world) : world :=
  {| cache := cache w; table := t; serial := s; now := now w;
     redis_faults := redis_faults w; pg_faults := pg_faults w |}.

Definition invalid_integer : exn :=
  BackendError "invalid input syntax for type integer".
Definition not_null_violation : exn :=
  BackendError "null value in column name violates not-null constraint".
Definition bind_mismatch : exn :=
  BackendError "bind message supplies the wrong number of parameters".

(** The id a parameter is compared with: NULL compares with nothing,
    a text that is no integer is an error. *)
Definition id_param (p : jsval) : exn + option Z :=
  match param p with
  | None => inr None
  | Some s =>
    match int4in s with
    | Some i => inr (Some i)
    | None => inl invalid_integer
    end
  end.

Definition matching (i : option Z) (it : item) : bool :=
  match i with
  | Some i => has_id i it
  | None => false
  end.

Definition query (text : sql) (params : list jsval) (w : world)
  : (exn + QueryResult) * world :=
  match text, params with
  | SELECT_1, [] =>
    (inr {| rows := [JObj [("?column?", JNum 1)]]; rowCount := 1 |}, w)
  | SELECT_items, [] => (inr (result (newest_first (table w))), w)
  | INSERT_item, [name; description] =>
    match param name with
    | None => (inl not_null_violation, w)
    | Some n =>
      let it := {| item_id := serial w; item_name := n;
                   item_description := param description;
                   item_created_at := now w |} in
      (inr (result [it]), set_store (table w ++ [it]) (serial w + 1) w)
    end
  | SELECT_item, [id] =>
    match id_param id with
    | inl e => (inl e, w)
    | inr i => (inr (result (List.filter (matching i) (table w))), w)
    end
  | UPDATE_item, [name; description; id] =>
    match id_param id with
    | inl e => (inl e, w)
    | inr i =>
      match param name with
      | None =>
        if existsb (matching i) (table w) then (inl not_null_violation, w)
        else (inr (result []), w)
      | Some n =>
        let change it :=
            if matching i it
            then {| item_id := item_id it; item_name := n;
                    item_description := param description;
                    item_created_at := item_created_at it |}
            else it in
        (inr (result (map change (List.filter (matching i) (table w)))),
         set_store (map change (table w)) (serial w) w)
      end
    end
  | DELETE_item, [id] =>
    match id_param id with
    | inl e => (inl e, w)
    | inr i =>
      (inr {| rows := [];
              rowCount := Z.of_nat (length (List.filter (matching i) (table w))) |},
       set_store (List.filter (λ it, negb (matching i it)) (table w)) (serial w) w)
    end
  | _, _ => (inl bind_mismatch, w)
  end.

(** *** The cache commands *)

Definition set_cache (c : gmap string (string * Z)) (w : world) : world :=
  {| cache := c; table := table w; serial := serial w; now := now w;
     redis_faults := redis_faults w; pg_faults := pg_faults w |}.

(** The text under a key, unless the entry has expired. *)
Definition live (key : string) (w : world) : option string :=
  match cache w !! key with
  | Some (text, expiry) => if now w <? expiry then Some text else None
  | None => None
  end.

Definition invalid_expire : exn := BackendError "ERR invalid expire time in 'set' command".

(** *** Faults and the step function *)

Definition unreachable : exn := BackendError "connect ECONNREFUSED".

Definition redis_fault (w : world) : bool * world :=
  match redis_faults w with
  | f :: fs =>
    (f, {| cache := cache w; table := table w; serial := serial w; now := now w;
           redis_faults := fs; pg_faults := pg_faults w |})
  | [] => (false, w)
  end.

Definition pg_fault (w : world) : bool * world :=
  match pg_faults w with
  | f :: fs =>
    (f, {| cache := cache w; table := table w; serial := serial w; now := now w;
           redis_faults := redis_faults w; pg_faults := fs |})
  | [] => (false, w)
  end.

Definition step (o : op) (w : world) : (exn + reply o) * world :=
  match o return (exn + reply o) * world with
  | redis_get key =>
    let '(f, w) := redis_fault w in
    if f then (inl unreachable, w) else (inr (live key w), w)
  | redis_set key v ttl =>
    let '(f, w) := redis_fault w in
    if f then (inl unreachable, w)
    else if ttl <=? 0 then (inl invalid_expire, w)
    else (inr "OK", set_cache (<[key := (v, now w + ttl)]> (cache w)) w)
  | redis_del key =>
    let '(f, w) := redis_fault w in
    if f then (inl unreachable, w)
    else (inr (match live key w with Some _ => 1 | None => 0 end),
          set_cache (delete key (cache w)) w)
  | redis_ping =>
    let '(f, w) := redis_fault w in
    if f then (inl unreachable, w) else (inr "PONG", w)
  | pg_query text params =>
    let '(f, w) := pg_fault w in
    if f then (inl unreachable, w) else query text params w
  end.

(** Time passing between two requests. *)
Definition elapse (seconds : Z) (w : world) : world :=
  {| cache := cache w; table := table w; serial := serial w;
     now := now w + seconds;
     redis_faults := redis_faults w; pg_faults := pg_faults w |}.

(** An empty cache and an empty table, at the start of 2025. *)
Definition empty : world :=
  {| cache := ∅; table := []; serial := 1; now := 1735689600;
     redis_faults := []; pg_faults := [] |}.

(** The same state with other fault schedules. *)
Definition with_faults (redis pg : list bool) (w : world) : world :=
  {| cache := cache w; table := table w; serial := serial w; now := now w;
     redis_faults := redis; pg_faults := pg |}.

End Mem.

(** ** Scenarios *)

(** Concrete requests and states used to exercise the properties
    below. *)
Module Scenario.

(** The rows of the list test of the suite. *)
Definition fakeRows : list value :=
  [JObj [("id", JNum 1); ("name", JStr "A"); ("description", JStr "desc A");
         ("created_at", JStr "2025-01-01T00:00:00Z")];
   JObj [("id", JNum 2); ("name", JStr "B"); ("description", JStr "desc B");
         ("created_at", JStr "2025-02-02T00:00:00Z")]].

(** [redisMock.get.mockResolvedValueOnce(null)],
    [pgPoolMock.query.mockResolvedValueOnce({ rows: fakeRows })],
    [redisMock.set.mockResolvedValueOnce('OK')]. *)
Definition list_test : Mock.mocks :=
  {| Mock.get_once := [inr None];
     Mock.set_once := [inr "OK"];
     Mock.del_once := [];
     Mock.ping_once := [];
     Mock.query_once := [inr {| rows := fakeRows; rowCount := 2 |}] |}.

(** The cache answers with a stored list. *)
Definition cached_list : Mock.mocks :=
  {| Mock.get_once := [inr (Some "[1,2]")];
     Mock.set_once := []; Mock.del_once := []; Mock.ping_once := [];
     Mock.query_once := [] |}.

(** The store rejects the next query. *)
Definition store_down : Mock.mocks :=
  {| Mock.get_once := []; Mock.set_once := []; Mock.del_once := [];
     Mock.ping_once := []; Mock.query_once := [inl Mock.down] |}.

(** The store reports one affected row. *)
Definition one_row : Mock.mocks :=
  {| Mock.get_once := []; Mock.set_once := []; Mock.del_once := [];
     Mock.ping_once := [];
     Mock.query_once := [inr {| rows := [JObj [("id", JNum 5)]]; rowCount := 1 |}] |}.

(** A request body with a name and an empty description. *)
Definition named : list (string * value) :=
  [("name", JStr "A"); ("description", JStr "")].

(** The in-memory service after that body was posted: item 1 exists. *)
Definition one_item : Mem.world := after Mem.step (post_items named) Mem.empty.

(** The in-memory service after item 1 was looked up before it
    existed. *)
Definition looked_up : Mem.world := after Mem.step (get_item "1") Mem.empty.

(** The first call on the cache is rejected. *)
Definition cache_down : Mem.world := Mem.with_faults [true] [] Mem.empty.

(** The second call on the cache is rejected. *)
Definition cache_write_down : Mem.world := Mem.with_faults [false; true] [] Mem.empty.


End Scenario.

(** More concrete states of the mocked clients. *)
Module Case.

(** The cache rejects the next ping. *)
Definition ping_down : Mock.mocks :=
  {| Mock.get_once := []; Mock.set_once := []; Mock.del_once := [];
     Mock.ping_once := [inl Mock.down]; Mock.query_once := [] |}.

(** The cache answers a text that is no JSON. *)
Definition cached_garbage : Mock.mocks :=
  {| Mock.get_once := [inr (Some "{")];
     Mock.set_once := []; Mock.del_once := []; Mock.ping_once := [];
     Mock.query_once := [] |}.

(** The cache answers the empty text. *)
Definition cached_empty : Mock.mocks :=
  {| Mock.get_once := [inr (Some "")];
     Mock.set_once := []; Mock.del_once := []; Mock.ping_once := [];
     Mock.query_once := [] |}.

(** The cache answers the text [null]. *)
Definition cached_null : Mock.mocks :=
  {| Mock.get_once := [inr (Some "null")];
     Mock.set_once := []; Mock.del_once := []; Mock.ping_once := [];
     Mock.query_once := [] |}.

(** Item 1 exists and a lookup has put it in the cache. *)
Definition one_item_cached : Mem.world :=
  after Mem.step (get_item "1") Scenario.one_item.

(** No item exists and a listing has put the empty list in the cache. *)
Definition empty_list_cached : Mem.world :=
  after Mem.step get_items Mem.empty.

(** Item 1 exists and the second call on the cache is rejected. *)
Definition one_item_write_down : Mem.world :=
  Mem.with_faults [false; true] [] Scenario.one_item.

End Case.

(** * Properties *)

Lemma parse_empty : JSON.parse "" = inl (SyntaxError "Unexpected token in JSON").
Proof. reflexivity. Qed.

Lemma present_Some (cached : option string) (text : string) :
  cached = Some text → text ≠ "" → present cached = Some text.
Proof.
  intros -> Hne. unfold present.
  destruct (String.eqb_spec text ""); [contradiction|reflexivity].
Qed.

(** A text that parses is not empty, hence truthy. *)
Lemma parsed_present (text : string) (v : value) :
  JSON.parse text = inr v → present (Some text) = Some text.
Proof.
  intros Hp. apply present_Some; [reflexivity|].
  intros ->. rewrite parse_empty in Hp. discriminate.
Qed.

(** ** Reading back what was serialized *)

Section RoundTrip.

Import JSON.

Lemma parse_chars_escape_one (c : ascii) (s rest : string) :
  parse_chars ((escape c +:+ s) +:+ rest)
  = '(str, r) ← parse_chars (s +:+ rest); Some (String c str, r).
Proof. destruct c as [[] [] [] [] [] [] [] []]; reflexivity. Qed.

(** Reading back an escaped string. *)
Lemma parse_chars_escape (s rest : string) :
  parse_chars (escape_all s +:+ String dquote rest) = Some (s, rest).
Proof.
  induction s as [|c s IH]; [reflexivity|].
  change (escape_all (String c s)) with (escape c +:+ escape_all s).
  rewrite parse_chars_escape_one, IH. reflexivity.
Qed.

Lemma digit_pretty_char (d : N) :
  (d < 10)%N → digit (pretty_N_char d) = Some (Z.of_N d).
Proof.
  intros Hd.
  assert (d = 0 ∨ d = 1 ∨ d = 2 ∨ d = 3 ∨ d = 4 ∨ d = 5 ∨ d = 6 ∨ d = 7
          ∨ d = 8 ∨ d = 9)%N as Hcases by lia.
  repeat (destruct Hcases as [->|Hcases]; [reflexivity|]). subst. reflexivity.
Qed.

Lemma pretty_N_go_app (x : N) (s rest : string) :
  pretty_N_go x s +:+ rest = pretty_N_go x (s +:+ rest).
Proof.
  revert s. induction (N.lt_wf_0 x) as [x _ IH]; intros s.
  destruct (decide (x = 0)%N) as [->|Hx]; [reflexivity|].
  rewrite !(pretty_N_go_step x) by lia.
  rewrite IH by (apply N.div_lt; lia). reflexivity.
Qed.

Lemma digits_pretty_N_go (x : N) (s : string) :
  ∃ m : Z, ∀ acc : Z,
    digits acc (pretty_N_go x s) = digits (acc * m + Z.of_N x) s.
Proof.
  revert s. induction (N.lt_wf_0 x) as [x _ IH]; intros s.
  destruct (decide (x = 0)%N) as [->|Hx].
  - exists 1. intros acc. rewrite pretty_N_go_0. f_equal. lia.
  - destruct (IH (x `div` 10)%N (N.div_lt x 10 ltac:(lia) eq_refl)
                 (String (pretty_N_char (x `mod` 10)) s)) as [m Hm].
    exists (10 * m). intros acc.
    rewrite pretty_N_go_step, Hm by lia. cbn [digits].
    rewrite digit_pretty_char by (apply N.mod_lt; lia).
    f_equal.
    rewrite (N.div_mod x 10) at 3 by lia.
    rewrite N2Z.inj_add, N2Z.inj_mul. simpl (Z.of_N 10). lia.
Qed.

Lemma pretty_N_go_head (x : N) (s : string) :
  (0 < x)%N →
  ∃ (d : N) (t : string),
    (0 < d < 10)%N ∧ pretty_N_go x s = String (pretty_N_char d) t.
Proof.
  revert s. induction (N.lt_wf_0 x) as [x _ IH]; intros s Hx.
  rewrite pretty_N_go_step by lia.
  destruct (decide (x `div` 10 = 0)%N) as [Hdiv|Hdiv].
  - rewrite Hdiv, pretty_N_go_0. exists x, s.
    apply N.div_small_iff in Hdiv; [|lia].
    split; [lia|]. rewrite N.mod_small by lia. reflexivity.
  - apply IH; [apply N.div_lt; lia|apply N.neq_0_lt_0; exact Hdiv].
Qed.

Lemma digits_stop (n : Z) (rest : string) : stops rest → digits n rest = (n, rest).
Proof.
  destruct rest as [|c rest]; [reflexivity|].
  intros [-> | [-> | ->]]; reflexivity.
Qed.

Lemma integral_stop (rest : string) : stops rest → integral rest = true.
Proof.
  destruct rest as [|c rest]; [reflexivity|].
  intros [-> | [-> | ->]]; reflexivity.
Qed.

Lemma parse_nat_pretty (p : positive) (rest : string) :
  stops rest →
  ∃ (d : N) (t : string),
    (0 < d < 10)%N
    ∧ pretty (N.pos p) +:+ rest = String (pretty_N_char d) t
    ∧ parse_nat (String (pretty_N_char d) t) = Some (Z.pos p, rest).
Proof.
  intros Hstop.
  change (pretty (N.pos p)) with (pretty_N_go (N.pos p) "").
  rewrite pretty_N_go_app. cbn [String.append].
  destruct (pretty_N_go_head (N.pos p) rest) as (d & t & Hd & Heq); [lia|].
  exists d, t. split; [exact Hd|]. split; [exact Heq|].
  destruct (digits_pretty_N_go (N.pos p) rest) as [m Hm].
  specialize (Hm 0). rewrite Heq in Hm. cbn [digits] in Hm.
  unfold parse_nat. rewrite digit_pretty_char in * by lia.
  destruct (Z.of_N d) as [|q|q] eqn:Hq; [lia| |lia].
  replace (10 * 0 + Z.pos q) with (Z.pos q) in Hm by lia.
  rewrite Hm. f_equal. rewrite digits_stop by exact Hstop. f_equal. 
Qed.

Lemma string_app_assoc (a b c : string) : (a +:+ b) +:+ c = a +:+ (b +:+ c).
Proof.
  induction a as [|x a IH]; [reflexivity|].
  change (String x ((a +:+ b) +:+ c) = String x (a +:+ (b +:+ c))).
  f_equal. exact IH.
Qed.

Lemma string_app_empty (a : string) : a +:+ "" = a.
Proof.
  induction a as [|x a IH]; [reflexivity|].
  change (String x (a +:+ "") = String x a). f_equal. exact IH.
Qed.

Lemma string_length_app (a b : string) :
  String.length (a +:+ b) = (String.length a + String.length b)%nat.
Proof.
  induction a as [|x a IH]; [reflexivity|].
  change (S (String.length (a +:+ b)) = S (String.length a + String.length b)).
  f_equal. exact IH.
Qed.

(** Induction on values, with the hypothesis for every element of an
    array and every member of an object. *)
Lemma value_induction (P : value → Prop) :
  P JNull →
  (∀ b, P (JBool b)) →
  (∀ n, P (JNum n)) →
  (∀ s, P (JStr s)) →
  (∀ vs, Forall P vs → P (JArr vs)) →
  (∀ fields, Forall (λ kv, P kv.2) fields → P (JObj fields)) →
  ∀ v, P v.
Proof.
  intros Hnull Hbool Hnum Hstr Harr Hobj.
  fix IH 1. intros [ |b|n|s|vs|fields].
  - exact Hnull.
  - apply Hbool.
  - apply Hnum.
  - apply Hstr.
  - apply Harr. induction vs as [|v vs IHvs]; constructor; [apply IH|exact IHvs].
  - apply Hobj.
    induction fields as [|[k v] fields IHfs]; constructor; [apply IH|exact IHfs].
Qed.

Lemma opens_pretty_char (d : N) : (d < 10)%N → opens (pretty_N_char d).
Proof.
  intros Hd.
  assert (d = 0 ∨ d = 1 ∨ d = 2 ∨ d = 3 ∨ d = 4 ∨ d = 5 ∨ d = 6 ∨ d = 7
          ∨ d = 8 ∨ d = 9)%N as Hcases by lia.
  repeat (destruct Hcases as [->|Hcases]; [repeat split|]). subst. repeat split.
Qed.

Lemma stringify_head (v : value) (rest : string) :
  ∃ (c : ascii) (t : string), stringify v +:+ rest = String c t ∧ opens c.
Proof.
  destruct v as [ |[]|[|p|p]|s|vs|fields]; cbn [stringify];
    try (eexists _, _; split; [reflexivity|repeat split]).
  destruct (parse_nat_pretty p "" I) as (d & t & Hd & Heq & _).
  rewrite string_app_empty in Heq.
  change (pretty (Z.pos p)) with (pretty (N.pos p)). rewrite Heq.
  eexists _, _. split; [reflexivity|]. apply opens_pretty_char. lia.
Qed.

Lemma skip_ws_opens (c : ascii) (t : string) :
  opens c → skip_ws (String c t) = String c t.
Proof. intros (Hws & _). cbn [skip_ws]. rewrite Hws. reflexivity. Qed.

Lemma skip_ws_stops (rest : string) : stops rest → skip_ws rest = rest.
Proof.
  destruct rest as [|c rest]; [reflexivity|].
  intros [-> | [-> | ->]]; reflexivity.
Qed.

Lemma stops_comma (rest : string) : stops (String "," rest).
Proof. left. reflexivity. Qed.

Lemma stops_bracket (rest : string) : stops (String "]" rest).
Proof. right. left. reflexivity. Qed.

Lemma stops_brace (rest : string) : stops (String "}" rest).
Proof. right. right. reflexivity. Qed.

Lemma reads_back_elements (vs : list value) :
  Forall reads_back vs →
  vs ≠ [] →
  ∀ (fuel : nat) (rest : string),
    (foldr (λ e acc, S (weight e + acc)) 0 vs ≤ fuel)%nat →
    parse_elements fuel (commas (map stringify vs) +:+ String "]" rest)
    = Some (vs, rest).
Proof.
  induction 1 as [|v vs Hv Hvs IH]; [contradiction|]. intros _ fuel rest Hfuel.
  cbn [foldr] in Hfuel. destruct fuel as [|fuel]; [lia|].
  cbn [parse_elements map commas].
  destruct vs as [|v' vs].
  - cbn [map]. rewrite Hv by (lia || apply stops_bracket).
    reflexivity.
  - cbn [map]. rewrite !string_app_assoc.
    change ("," +:+ ?s) with (String "," s).
    rewrite Hv by (lia || apply stops_comma).
    cbn -[commas parse_elements stringify].
    change (stringify v' :: map stringify vs) with (map stringify (v' :: vs)).
    change (is_ws ",") with false. cbn -[commas parse_elements stringify].
    rewrite IH by (discriminate || lia). reflexivity.
Qed.

Lemma member_then (k : string) (v : value) (rest : string) :
  member (k, v) +:+ rest
  = String dquote (escape_all k +:+ String dquote (String ":" (stringify v +:+ rest))).
Proof.
  unfold member, quote. cbn [fst snd].
  rewrite !string_app_assoc.
  change (String dquote ?a +:+ ?b) with (String dquote (a +:+ b)).
  rewrite !string_app_assoc. reflexivity.
Qed.

Lemma parse_member (k : string) (v : value) (fuel : nat) (rest : string) :
  reads_back v → (weight v ≤ fuel)%nat → stops rest →
  parse_members (S fuel) (member (k, v) +:+ rest)
  = match rest with
    | EmptyString => None
    | String c rest' =>
      if (N_of_ascii c =? 44)%N then
        '(kvs, r) ← parse_members fuel rest'; Some ((k, v) :: kvs, r)
      else if (N_of_ascii c =? 125)%N then Some ([(k, v)], rest')
      else None
    end.
Proof.
  intros Hv Hfuel Hstop. rewrite member_then.
  cbn [parse_members].
  change (skip_ws (String dquote ?s)) with (String dquote s).
  cbv iota. change (N_of_ascii dquote =? 34)%N with true. cbv iota.
  rewrite parse_chars_escape.
  cbn -[parse_value stringify parse_members].
  change (is_ws ":") with false.
  cbn -[parse_value stringify parse_members].
  rewrite Hv by assumption.
  cbn -[parse_value stringify parse_members].
  rewrite skip_ws_stops by assumption. reflexivity.
Qed.

Lemma reads_back_members (fields : list (string * value)) :
  Forall (λ kv, reads_back kv.2) fields →
  fields ≠ [] →
  ∀ (fuel : nat) (rest : string),
    (foldr (λ kv acc, S (weight kv.2 + acc)) 0 fields ≤ fuel)%nat →
    parse_members fuel (commas (map member fields) +:+ String "}" rest)
    = Some (fields, rest).
Proof.
  induction 1 as [|[k v] fields Hv Hfs IH]; [contradiction|].
  intros _ fuel rest Hfuel.
  cbn [foldr snd] in Hfuel. destruct fuel as [|fuel]; [lia|].
  destruct fields as [|kv' fields].
  - cbn [map commas].
    rewrite parse_member by (assumption || lia || apply stops_brace).
    reflexivity.
  - cbn [map commas]. rewrite !string_app_assoc.
    change ("," +:+ ?s) with (String "," s).
    rewrite parse_member by (assumption || lia || apply stops_comma).
    change (N_of_ascii "," =? 44)%N with true. cbv iota.
    change (member kv' :: map member fields) with (map member (kv' :: fields)).
    rewrite IH by (discriminate || lia). reflexivity.
Qed.

Lemma parse_value_digit (d : N) (t : string) (fuel : nat) :
  (d < 10)%N →
  parse_value (S fuel) (String (pretty_N_char d) t)
  = '(n, rest) ← parse_nat (String (pretty_N_char d) t);
    if integral rest then Some (JNum n, rest) else None.
Proof.
  intros Hd.
  assert (d = 0 ∨ d = 1 ∨ d = 2 ∨ d = 3 ∨ d = 4 ∨ d = 5 ∨ d = 6 ∨ d = 7
          ∨ d = 8 ∨ d = 9)%N as Hcases by lia.
  assert (∀ c : ascii,
             parse_value (S fuel) (String (pretty_N_char d) t)
             = '(n, rest) ← parse_nat (String (pretty_N_char d) t);
               if integral rest then Some (JNum n, rest) else None) as Hgoal;
    [|exact (Hgoal "0"%char)].
  intros _.
  repeat (destruct Hcases as [->|Hcases]; [|]); subst;
    cbv -[digits integral];
    repeat match goal with
           | |- context [digits ?a t] => destruct (digits a t) as [? ?]
           | |- context [integral ?r] => destruct (integral r)
           end; reflexivity.
Qed.

Lemma commas_head (v : value) (vs : list value) (rest : string) :
  ∃ rest', commas (map stringify (v :: vs)) +:+ rest = stringify v +:+ rest'.
Proof.
  destruct vs as [|v' vs]; cbn [map commas].
  - exists rest. reflexivity.
  - rewrite string_app_assoc. eexists. reflexivity.
Qed.

Lemma members_head (kv : string * value) (fields : list (string * value))
    (rest : string) :
  ∃ t, commas (map member (kv :: fields)) +:+ rest = String dquote t.
Proof.
  destruct kv as [k v]. destruct fields as [|kv' fields]; cbn [map commas].
  - rewrite member_then. eexists. reflexivity.
  - rewrite string_app_assoc, member_then. eexists. reflexivity.
Qed.

Lemma bind_Some {A B : Type} (x : A) (f : A → option B) : Some x ≫= f = f x.
Proof. reflexivity. Qed.

(** Every value is read back from its serialization, given fuel for
    its weight. *)
Lemma stringify_reads_back (v : value) : reads_back v.
Proof.
  induction v as [ |b|n|s|vs IH|fields IH] using value_induction;
    intros fuel rest Hfuel Hstop;
    (destruct fuel as [|fuel]; [cbn in Hfuel; lia|]).
  - reflexivity.
  - destruct b; reflexivity.
  - destruct n as [|p|p].
    + change (stringify (JNum 0) +:+ rest) with (String (pretty_N_char 0) rest).
      rewrite parse_value_digit by lia.
      change (parse_nat (String (pretty_N_char 0) rest)) with (Some (0, rest)).
      rewrite bind_Some. cbv beta iota.
      rewrite integral_stop by assumption. reflexivity.
    + destruct (parse_nat_pretty p rest Hstop) as (d & t & Hd & Heq & Hparse).
      change (stringify (JNum (Z.pos p))) with (pretty (N.pos p)).
      rewrite Heq, parse_value_digit, Hparse by lia.
      rewrite bind_Some. cbv beta iota.
      rewrite integral_stop by assumption. reflexivity.
    + destruct (parse_nat_pretty p rest Hstop) as (d & t & Hd & Heq & Hparse).
      change (stringify (JNum (Z.neg p)) +:+ rest)
        with (String "-" (pretty (N.pos p) +:+ rest)).
      rewrite Heq.
      change (parse_value (S fuel) (String "-" (String (pretty_N_char d) t)))
        with ('(z, r) ← ('(n, r) ← ('(n, r) ← parse_nat (String (pretty_N_char d) t);
                                     Some (- n, r));
                          if integral r then Some (n, r) else None);
              Some (JNum z, r)).
      rewrite Hparse, !bind_Some. cbv beta iota.
      rewrite integral_stop, bind_Some by assumption. reflexivity.
  - change (stringify (JStr s)) with (quote s). unfold quote.
    change (String dquote ?a +:+ ?b) with (String dquote (a +:+ b)).
    rewrite string_app_assoc.
    change (String dquote "" +:+ rest) with (String dquote rest).
    change (parse_value (S fuel) (String dquote ?x))
      with ('(str, r) ← parse_chars x; Some (JStr str, r)).
    rewrite parse_chars_escape. reflexivity.
  - destruct vs as [|v vs]; [reflexivity|].
    change (stringify (JArr (v :: vs)) +:+ rest)
      with (String "[" ((commas (map stringify (v :: vs)) +:+ "]") +:+ rest)).
    rewrite string_app_assoc. change ("]" +:+ rest) with (String "]" rest).
    pose proof (reads_back_elements (v :: vs) IH ltac:(discriminate) fuel rest) as Hel.
    destruct (commas_head v vs (String "]" rest)) as [rest' Hhead].
    destruct (stringify_head v rest') as (c & t & Hc & Hopen).
    rewrite Hhead, Hc in Hel |- *.
    change (parse_value (S fuel) (String "[" (String c t)))
      with (match skip_ws (String c t) with
            | String c2 rest2 =>
              if (N_of_ascii c2 =? 93)%N then Some (JArr [], rest2)
              else '(vs, r) ← parse_elements fuel (String c t); Some (JArr vs, r)
            | EmptyString => None
            end).
    rewrite skip_ws_opens by assumption. destruct Hopen as (_ & -> & _).
    rewrite Hel by (cbn [weight] in Hfuel; lia). reflexivity.
  - destruct fields as [|kv fields]; [reflexivity|].
    change (stringify (JObj (kv :: fields)) +:+ rest)
      with (String "{" ((commas (map member (kv :: fields)) +:+ "}") +:+ rest)).
    rewrite string_app_assoc. change ("}" +:+ rest) with (String "}" rest).
    pose proof (reads_back_members (kv :: fields) IH ltac:(discriminate) fuel rest)
      as Hmem.
    destruct (members_head kv fields (String "}" rest)) as [t Hhead].
    rewrite Hhead in Hmem |- *.
    change (parse_value (S fuel) (String "{" (String dquote t)))
      with ('(kvs, r) ← parse_members fuel (String dquote t); Some (JObj kvs, r)).
    rewrite Hmem by (cbn [weight] in Hfuel; lia). reflexivity.
Qed.

Lemma weight_elements (vs : list value) :
  Forall (λ e, (weight e ≤ 2 * String.length (stringify e))%nat) vs →
  (foldr (λ e acc, S (weight e + acc)) 0 vs
   ≤ 2 * String.length (commas (map stringify vs)) + 1)%nat.
Proof.
  induction 1 as [|v vs Hv Hvs IH]; [cbn; lia|].
  destruct vs as [|v' vs]; cbn [foldr map commas] in *.
  - lia.
  - rewrite !string_length_app. cbn [String.length]. lia.
Qed.

Lemma weight_members (fields : list (string * value)) :
  Forall (λ kv, (weight kv.2 ≤ 2 * String.length (stringify kv.2))%nat) fields →
  (foldr (λ kv acc, S (weight kv.2 + acc)) 0 fields
   ≤ 2 * String.length (commas (map member fields)) + 1)%nat.
Proof.
  induction 1 as [|[k v] fields Hv Hfs IH]; [cbn; lia|].
  assert (String.length (stringify v) < String.length (member (k, v)))%nat as Hlen.
  { unfold member. cbn [fst snd]. rewrite !string_length_app. cbn [String.length]. lia. }
  cbn [snd] in Hv.
  destruct fields as [|kv' fields]; cbn [foldr map commas snd] in *.
  - lia.
  - rewrite !string_length_app. cbn [String.length]. lia.
Qed.

Lemma weight_bound (v : value) :
  (weight v ≤ 2 * String.length (stringify v))%nat.
Proof.
  induction v as [ |b|n|s|vs IH|fields IH] using value_induction.
  - cbn. lia.
  - destruct b; cbn; lia.
  - destruct (stringify_head (JNum n) "") as (c & t & Heq & _).
    rewrite string_app_empty in Heq. rewrite Heq. cbn. lia.
  - cbn. lia.
  - pose proof (weight_elements vs IH) as Hw.
    change (stringify (JArr vs)) with ("[" +:+ commas (map stringify vs) +:+ "]").
    rewrite !string_length_app. cbn [weight String.length]. lia.
  - pose proof (weight_members fields IH) as Hw.
    change (stringify (JObj fields)) with ("{" +:+ commas (map member fields) +:+ "}").
    rewrite !string_length_app. cbn [weight String.length]. lia.
Qed.

(** [JSON.parse(JSON.stringify(v))] is [v]. *)
Theorem parse_stringify (v : value) : JSON.parse (JSON.stringify v) = inr v.
Proof.
  unfold parse.
  pose proof (stringify_reads_back v (2 * String.length (stringify v) + 2)%nat
                EmptyString) as Hread.
  rewrite string_app_empty in Hread.
  rewrite Hread; [reflexivity| |exact I].
  pose proof (weight_bound v). lia.
Qed.

End RoundTrip.

(** ** Runs in an arbitrary environment *)

Section Runs.

Context {W : Type}.
Variable step : ∀ o : op, W → (exn + reply o) * W.

Lemma run_bind {A B : Type} (p : prog A) (f : A → prog B) (w : W) :
  run step (p ≫= f) w =
  match run step p w with
  | (tr, inr a, w') =>
    let '(tr', res, w'') := run step (f a) w' in (tr ++ tr', res, w'')
  | (tr, inl e, w') => (tr, inl e, w')
  end.
Proof.
  change (p ≫= f) with (bind p f).
  revert w; induction p as [a|e|o k IH|l e k IH]; intros w; simpl.
  - destruct (run step (f a) w) as [[tr res] w']; reflexivity.
  - reflexivity.
  - rewrite IH.
    destruct (run step (k (step o w).1) (step o w).2) as [[tr [e|a]] w']; simpl.
    + reflexivity.
    + destruct (run step (f a) w') as [[tr' res] w'']; reflexivity.
  - rewrite IH.
    destruct (run step k w) as [[tr [e'|a]] w']; simpl.
    + reflexivity.
    + destruct (run step (f a) w') as [[tr' res] w'']; reflexivity.
Qed.

Lemma run_try_catch {A : Type} (p : prog A) (h : exn → prog A) (w : W) :
  run step (try_catch p h) w =
  match run step p w with
  | (tr, inl e, w') =>
    let '(tr', res, w'') := run step (h e) w' in (tr ++ tr', res, w'')
  | (tr, inr a, w') => (tr, inr a, w')
  end.
Proof.
  revert w; induction p as [a|e|o k IH|l e k IH]; intros w; simpl.
  - reflexivity.
  - destruct (run step (h e) w) as [[tr res] w']; reflexivity.
  - rewrite IH.
    destruct (run step (k (step o w).1) (step o w).2) as [[tr [e|a]] w']; simpl.
    + destruct (run step (h e) w') as [[tr' res] w'']; reflexivity.
    + reflexivity.
  - rewrite IH.
    destruct (run step k w) as [[tr [e'|a]] w']; simpl.
    + destruct (run step (h e') w') as [[tr' res] w'']; reflexivity.
    + reflexivity.
Qed.

Lemma run_await (o : op) (w : W) :
  run step (await o) w = ([Called o], (step o w).1, (step o w).2).
Proof. simpl. destruct (step o w) as [[e|v] w']; reflexivity. Qed.

Lemma run_lift {A : Type} (r : exn + A) (w : W) :
  run step (lift r) w = ([], r, w).
Proof. destruct r; reflexivity. Qed.

Lemma run_cacheOrFetch (key : string) (fetchFn : prog value) (ttl : Z) (w : W) :
  run step (cacheOrFetch key fetchFn ttl) w =
  match (step (redis_get key) w).1 with
  | inl e => ([Called (redis_get key)], inl e, (step (redis_get key) w).2)
  | inr cached =>
    match present cached with
    | Some text =>
      ([Called (redis_get key)], JSON.parse text, (step (redis_get key) w).2)
    | None =>
      match run step fetchFn (step (redis_get key) w).2 with
      | (tr, inl e, w') => (Called (redis_get key) :: tr, inl e, w')
      | (tr, inr result, w') =>
        let write := redis_set key (JSON.stringify result) ttl in
        (Called (redis_get key) :: tr ++ [Called write],
         match (step write w').1 with inl e => inl e | inr _ => inr result end,
         (step write w').2)
      end
    end
  end.
Proof.
  unfold cacheOrFetch. rewrite run_bind, (run_await (redis_get key)).
  destruct (step (redis_get key) w) as [[e|cached] w1]; simpl; [reflexivity|].
  destruct (present cached) as [text|].
  - rewrite run_lift. reflexivity.
  - rewrite run_bind.
    destruct (run step fetchFn w1) as [[tr [e|result]] w2]; [reflexivity|].
    simpl.
    destruct (step (redis_set key (JSON.stringify result) ttl) w2) as [[e|ok] w3];
      reflexivity.
Qed.

Lemma run_parts {A : Type} (p : prog A) (w : W) :
  run step p w = (trace step p w, outcome step p w, after step p w).
Proof. unfold trace, outcome, after. destruct (run step p w) as [[tr r] w']. reflexivity. Qed.

(** The coordinator on a miss, in terms of the run of the fetch
    function. *)
Lemma run_miss (key : string) (fetchFn : prog value) (ttl : Z) (w : W)
    (cached : option string) :
  (step (redis_get key) w).1 = inr cached →
  present cached = None →
  run step (cacheOrFetch key fetchFn ttl) w =
  match outcome step fetchFn (step (redis_get key) w).2 with
  | inl e =>
    (Called (redis_get key) :: trace step fetchFn (step (redis_get key) w).2,
     inl e, after step fetchFn (step (redis_get key) w).2)
  | inr result =>
    let write := redis_set key (JSON.stringify result) ttl in
    let w' := after step fetchFn (step (redis_get key) w).2 in
    (Called (redis_get key)
       :: trace step fetchFn (step (redis_get key) w).2 ++ [Called write],
     match (step write w').1 with inl e => inl e | inr _ => inr result end,
     (step write w').2)
  end.
Proof.
  intros Hget Hmiss. rewrite run_cacheOrFetch, Hget, Hmiss.
  rewrite (run_parts fetchFn).
  destruct (outcome step fetchFn (step (redis_get key) w).2); reflexivity.
Qed.

Lemma run_fetch_all (w : W) :
  run step fetch_all w =
  ([Called (pg_query SELECT_items [])],
   match (step (pg_query SELECT_items []) w).1 with
   | inl e => inl e
   | inr r => inr (JArr (rows r))
   end,
   (step (pg_query SELECT_items []) w).2).
Proof.
  unfold fetch_all. simpl.
  destruct (step (pg_query SELECT_items []) w) as [[e|r] w']; reflexivity.
Qed.

Lemma run_fetch_one (id : string) (w : W) :
  run step (fetch_one id) w =
  ([Called (pg_query SELECT_item [Some (JStr id)])],
   match (step (pg_query SELECT_item [Some (JStr id)]) w).1 with
   | inl e => inl e
   | inr r => inr (js_or (rows r !! 0%nat) JNull)
   end,
   (step (pg_query SELECT_item [Some (JStr id)]) w).2).
Proof.
  unfold fetch_one. simpl.
  destruct (step (pg_query SELECT_item [Some (JStr id)]) w) as [[e|r] w']; reflexivity.
Qed.

Lemma run_get_items (w : W) :
  run step get_items w =
  match run step (cacheOrFetch "items:all" fetch_all 30) w with
  | (tr, inr items, w') => (tr, inr (res_json 200 (Some items)), w')
  | (tr, inl e, w') =>
    (tr ++ [Logged "GET /items error:" e],
     inr (res_json 500 (error "Nie udało się pobrać listy itemów")), w')
  end.
Proof.
  unfold get_items. rewrite run_try_catch, run_bind.
  destruct (run step (cacheOrFetch "items:all" fetch_all 30) w) as [[tr [e|items]] w'];
    simpl; rewrite ?app_nil_r; reflexivity.
Qed.

Lemma run_get_item (id : string) (w : W) :
  run step (get_item id) w =
  match run step (cacheOrFetch ("items:" +:+ id) (fetch_one id) 60) w with
  | (tr, inr item, w') =>
    (tr,
     inr (if truthy item then res_json 200 (Some item)
          else res_json 404 (error "Item nie znaleziony")),
     w')
  | (tr, inl e, w') =>
    (tr ++ [Logged ("GET /items/" +:+ id +:+ " error:") e],
     inr (res_json 500 (error "Nie udało się pobrać itemu")), w')
  end.
Proof.
  unfold get_item. cbv zeta. rewrite run_try_catch, run_bind.
  destruct (run step (cacheOrFetch ("items:" +:+ id) (fetch_one id) 60) w)
    as [[tr [e|item]] w']; [reflexivity|].
  destruct (truthy item); simpl; rewrite app_nil_r; reflexivity.
Qed.

(** The two deletions of the replace and delete routes. *)
Lemma run_Promise_all2 (o1 o2 : op) (w : W) :
  run step (Promise_all [o1; o2]) w =
  ([Called o1; Called o2],
   match (step o1 w).1, (step o2 (step o1 w).2).1 with
   | inl e, _ => inl e
   | inr _, inl e => inl e
   | inr _, inr _ => inr ()
   end,
   (step o2 (step o1 w).2).2).
Proof.
  unfold Promise_all. simpl.
  destruct (step o1 w) as [[e1|v1] w1]; simpl;
    destruct (step o2 w1) as [[e2|v2] w2]; reflexivity.
Qed.

Lemma run_post_items (body : list (string * value)) (w : W) :
  truthy' (field "name" body) = true →
  run step (post_items body) w =
  let insert :=
      pg_query INSERT_item
        [field "name" body; Some (js_or (field "description" body) JNull)] in
  let w1 := (step insert w).2 in
  let w2 := (step (redis_del "items:all") w1).2 in
  match (step insert w).1 with
  | inl e =>
    ([Called insert; Logged "POST /items error:" e],
     inr (res_json 500 (error "Nie udało się utworzyć nowego itemu")), w1)
  | inr r =>
    match (step (redis_del "items:all") w1).1 with
    | inl e =>
      ([Called insert; Called (redis_del "items:all");
        Logged "POST /items error:" e],
       inr (res_json 500 (error "Nie udało się utworzyć nowego itemu")), w2)
    | inr _ =>
      ([Called insert; Called (redis_del "items:all")],
       inr (res_json 201 (rows r !! 0%nat)), w2)
    end
  end.
Proof.
  intros Hname. unfold post_items. cbv zeta. rewrite Hname. simpl.
  destruct (step _ w) as [[e|r] w1]; simpl; [reflexivity|].
  destruct (step (redis_del "items:all") w1) as [[e|n] w2]; reflexivity.
Qed.

Lemma run_post_items_invalid (body : list (string * value)) (w : W) :
  truthy' (field "name" body) = false →
  run step (post_items body) w = ([], inr (res_json 400 (error name_required)), w).
Proof. intros Hname. unfold post_items. cbv zeta. rewrite Hname. reflexivity. Qed.

Lemma run_put_item (id : string) (body : list (string * value)) (w : W) :
  truthy' (field "name" body) = true →
  run step (put_item id body) w =
  let update :=
      pg_query UPDATE_item
        [field "name" body; Some (js_or (field "description" body) JNull);
         Some (JStr id)] in
  let del_all := redis_del "items:all" in
  let del_one := redis_del ("items:" +:+ id) in
  let w1 := (step update w).2 in
  let w2 := (step del_all w1).2 in
  let w3 := (step del_one w2).2 in
  let failed := res_json 500 (error "Nie udało się zaktualizować itemu") in
  match (step update w).1 with
  | inl e => ([Called update; Logged ("PUT /items/" +:+ id +:+ " error:") e], inr failed, w1)
  | inr r =>
    match rows r with
    | [] => ([Called update], inr (res_json 404 (error "Item nie istnieje")), w1)
    | first :: _ =>
      match (step del_all w1).1, (step del_one w2).1 with
      | inr _, inr _ =>
        ([Called update; Called del_all; Called del_one],
         inr (res_json 200 (Some first)), w3)
      | inl e, _ | inr _, inl e =>
        ([Called update; Called del_all; Called del_one;
          Logged ("PUT /items/" +:+ id +:+ " error:") e],
         inr failed, w3)
      end
    end
  end.
Proof.
  intros Hname. unfold put_item. cbv zeta. rewrite Hname.
  cbn [negb]. rewrite run_try_catch, run_bind, (run_await (pg_query UPDATE_item _)).
  destruct (step _ w) as [[e|r] w1]; cbn [fst snd]; [reflexivity|].
  destruct (rows r) as [|first rest] eqn:Hrows; [reflexivity|].
  change (Z.of_nat (length (first :: rest)) =? 0) with false.
  cbv iota. rewrite run_bind, run_Promise_all2.
  destruct (step (redis_del "items:all") w1) as [[e1|n1] w2]; cbn [fst snd];
    destruct (step (redis_del ("items:" +:+ id)) w2) as [[e2|n2] w3];
    reflexivity.
Qed.

Lemma run_put_item_invalid (id : string) (body : list (string * value)) (w : W) :
  truthy' (field "name" body) = false →
  run step (put_item id body) w = ([], inr (res_json 400 (error name_required)), w).
Proof. intros Hname. unfold put_item. cbv zeta. rewrite Hname. reflexivity. Qed.

Lemma run_delete_item (id : string) (w : W) :
  run step (delete_item id) w =
  let delete := pg_query DELETE_item [Some (JStr id)] in
  let del_all := redis_del "items:all" in
  let del_one := redis_del ("items:" +:+ id) in
  let w1 := (step delete w).2 in
  let w2 := (step del_all w1).2 in
  let w3 := (step del_one w2).2 in
  let failed := res_json 500 (error "Nie udało się usunąć itemu") in
  match (step delete w).1 with
  | inl e =>
    ([Called delete; Logged ("DELETE /items/" +:+ id +:+ " error:") e], inr failed, w1)
  | inr r =>
    if rowCount r =? 0 then
      ([Called delete], inr (res_json 404 (error "Item nie znaleziony")), w1)
    else
      match (step del_all w1).1, (step del_one w2).1 with
      | inr _, inr _ =>
        ([Called delete; Called del_all; Called del_one], inr (res_end 204), w3)
      | inl e, _ | inr _, inl e =>
        ([Called delete; Called del_all; Called del_one;
          Logged ("DELETE /items/" +:+ id +:+ " error:") e],
         inr failed, w3)
      end
  end.
Proof.
  unfold delete_item. cbv zeta.
  rewrite run_try_catch, run_bind, (run_await (pg_query DELETE_item _)).
  destruct (step _ w) as [[e|r] w1]; cbn [fst snd]; [reflexivity|].
  destruct (rowCount r =? 0); [reflexivity|].
  rewrite run_bind, run_Promise_all2.
  destruct (step (redis_del "items:all") w1) as [[e1|n1] w2]; cbn [fst snd];
    destruct (step (redis_del ("items:" +:+ id)) w2) as [[e2|n2] w3];
    reflexivity.
Qed.

End Runs.

(** ** The cache-aside coordinator *)

Section Coordinator.

Context {W : Type}.
Variable step : ∀ o : op, W → (exn + reply o) * W.

(** C6. When [redis.get] resolves to a text that parses, [cacheOrFetch]
    returns the parsed value after that single call: the fetch function
    is not run, whatever it is, and no other call is made. *)
Theorem hit_returns_cached_without_fetch
    (key : string) (fetchFn : prog value) (ttl : Z) (w : W)
    (text : string) (v : value) :
  (step (redis_get key) w).1 = inr (Some text) →
  JSON.parse text = inr v →
  run step (cacheOrFetch key fetchFn ttl) w
  = ([Called (redis_get key)], inr v, (step (redis_get key) w).2).
Proof.
  intros Hget Hparse. rewrite run_cacheOrFetch, Hget.
  rewrite (parsed_present text v Hparse), Hparse. reflexivity.
Qed.

(** C7. When the fetch function fails after a miss, [cacheOrFetch]
    fails with the same error; its calls are the read followed by those
    of one run of the fetch function, with no write to the cache. *)
Theorem fetch_failure_rethrown_without_write
    (key : string) (fetchFn : prog value) (ttl : Z) (w : W)
    (cached : option string) (e : exn) :
  (step (redis_get key) w).1 = inr cached →
  present cached = None →
  outcome step fetchFn (step (redis_get key) w).2 = inl e →
  run step (cacheOrFetch key fetchFn ttl) w
  = (Called (redis_get key) :: trace step fetchFn (step (redis_get key) w).2,
     inl e,
     after step fetchFn (step (redis_get key) w).2).
Proof.
  intros Hget Hmiss Hfetch.
  rewrite (run_miss step key fetchFn ttl w cached Hget Hmiss), Hfetch. reflexivity.
Qed.

(** C1, as the code has it.  When the fetch function returns [null]
    after a miss, [cacheOrFetch] issues the write of the text [null]
    under the key with the given expiry, whatever happens next: it
    returns [null] when the write resolves and fails with the error of
    the write when it is rejected.  And whenever a later read of the
    key resolves to that text, [cacheOrFetch] returns [null] after the
    read alone, without running the fetch function. *)
Theorem absence_is_cached
    (key : string) (fetchFn : prog value) (ttl : Z) (w : W)
    (cached : option string) :
  (step (redis_get key) w).1 = inr cached →
  present cached = None →
  outcome step fetchFn (step (redis_get key) w).2 = inr JNull →
  run step (cacheOrFetch key fetchFn ttl) w
  = (Called (redis_get key)
       :: trace step fetchFn (step (redis_get key) w).2
       ++ [Called (redis_set key "null" ttl)],
     match (step (redis_set key "null" ttl)
                 (after step fetchFn (step (redis_get key) w).2)).1 with
     | inl e => inl e
     | inr _ => inr JNull
     end,
     (step (redis_set key "null" ttl)
           (after step fetchFn (step (redis_get key) w).2)).2)
  ∧ ∀ (fetchFn' : prog value) (ttl' : Z) (w' : W),
      (step (redis_get key) w').1 = inr (Some "null") →
      run step (cacheOrFetch key fetchFn' ttl') w'
      = ([Called (redis_get key)], inr JNull, (step (redis_get key) w').2).
Proof.
  intros Hget Hmiss Hfetch. split.
  - rewrite (run_miss step key fetchFn ttl w cached Hget Hmiss), Hfetch.
    reflexivity.
  - intros fetchFn' ttl' w' Hget'. rewrite run_cacheOrFetch, Hget'. reflexivity.
Qed.

(** C2, as the code has it.  When [redis.get] is rejected,
    [cacheOrFetch] fails with that error after the read alone: the fetch
    function is not run.  The list and detail routes log the error and
    answer 500 without a query. *)
Theorem read_failure_rethrown_without_fetch :
  (∀ (key : string) (fetchFn : prog value) (ttl : Z) (w : W) (e : exn),
      (step (redis_get key) w).1 = inl e →
      run step (cacheOrFetch key fetchFn ttl) w
      = ([Called (redis_get key)], inl e, (step (redis_get key) w).2))
  ∧ (∀ (w : W) (e : exn),
        (step (redis_get "items:all") w).1 = inl e →
        run step get_items w
        = ([Called (redis_get "items:all"); Logged "GET /items error:" e],
           inr (res_json 500 (error "Nie udało się pobrać listy itemów")),
           (step (redis_get "items:all") w).2))
  ∧ (∀ (id : string) (w : W) (e : exn),
        (step (redis_get ("items:" +:+ id)) w).1 = inl e →
        run step (get_item id) w
        = ([Called (redis_get ("items:" +:+ id));
            Logged ("GET /items/" +:+ id +:+ " error:") e],
           inr (res_json 500 (error "Nie udało się pobrać itemu")),
           (step (redis_get ("items:" +:+ id)) w).2)).
Proof.
  split; [|split].
  - intros key fetchFn ttl w e Hget. rewrite run_cacheOrFetch, Hget. reflexivity.
  - intros w e Hget. rewrite run_get_items, run_cacheOrFetch, Hget. reflexivity.
  - intros id w e Hget. rewrite run_get_item, run_cacheOrFetch, Hget. reflexivity.
Qed.

(** The list route on a miss. *)
Lemma run_get_items_miss (w : W) (cached : option string) :
  (step (redis_get "items:all") w).1 = inr cached →
  present cached = None →
  run step get_items w =
  let read := redis_get "items:all" in
  let select := pg_query SELECT_items [] in
  let w1 := (step read w).2 in
  let w2 := (step select w1).2 in
  let failed := res_json 500 (error "Nie udało się pobrać listy itemów") in
  match (step select w1).1 with
  | inl e => ([Called read; Called select; Logged "GET /items error:" e], inr failed, w2)
  | inr r =>
    let write := redis_set "items:all" (JSON.stringify (JArr (rows r))) 30 in
    match (step write w2).1 with
    | inl e =>
      ([Called read; Called select; Called write; Logged "GET /items error:" e],
       inr failed, (step write w2).2)
    | inr _ =>
      ([Called read; Called select; Called write],
       inr (res_json 200 (Some (JArr (rows r)))), (step write w2).2)
    end
  end.
Proof.
  intros Hget Hmiss.
  rewrite run_get_items, run_cacheOrFetch, Hget, Hmiss, run_fetch_all. cbv zeta.
  destruct (step (pg_query SELECT_items []) (step (redis_get "items:all") w).2).1
    as [e|r]; [reflexivity|].
  cbn [app].
  destruct (step (redis_set "items:all" (JSON.stringify (JArr (rows r))) 30) _).1;
    reflexivity.
Qed.

(** The detail route on a miss. *)
Lemma run_get_item_miss (id : string) (w : W) (cached : option string) :
  (step (redis_get ("items:" +:+ id)) w).1 = inr cached →
  present cached = None →
  run step (get_item id) w =
  let read := redis_get ("items:" +:+ id) in
  let select := pg_query SELECT_item [Some (JStr id)] in
  let w1 := (step read w).2 in
  let w2 := (step select w1).2 in
  let label := "GET /items/" +:+ id +:+ " error:" in
  let failed := res_json 500 (error "Nie udało się pobrać itemu") in
  match (step select w1).1 with
  | inl e => ([Called read; Called select; Logged label e], inr failed, w2)
  | inr r =>
    let item := js_or (rows r !! 0%nat) JNull in
    let write := redis_set ("items:" +:+ id) (JSON.stringify item) 60 in
    match (step write w2).1 with
    | inl e =>
      ([Called read; Called select; Called write; Logged label e],
       inr failed, (step write w2).2)
    | inr _ =>
      ([Called read; Called select; Called write],
       inr (if truthy item then res_json 200 (Some item)
            else res_json 404 (error "Item nie znaleziony")),
       (step write w2).2)
    end
  end.
Proof.
  intros Hget Hmiss.
  rewrite run_get_item, run_cacheOrFetch, Hget, Hmiss, run_fetch_one. cbv zeta.
  destruct (step (pg_query SELECT_item [Some (JStr id)])
                 (step (redis_get ("items:" +:+ id)) w).2).1
    as [e|r]; [reflexivity|].
  cbn [app].
  destruct (step (redis_set ("items:" +:+ id)
                    (JSON.stringify (js_or (rows r !! 0%nat) JNull)) 60) _).1;
    reflexivity.
Qed.

(** C3, as the code has it.  When the fetch succeeds after a miss and
    [redis.set] is rejected, [cacheOrFetch] fails with the error of the
    write: the fetched value is not returned.  The list and detail
    routes then log that error, once, after the read, the query and the
    write, and answer 500 with their fixed message. *)
Theorem write_failure_rethrown :
  (∀ (key : string) (fetchFn : prog value) (ttl : Z) (w : W)
     (cached : option string) (result : value) (e : exn),
      (step (redis_get key) w).1 = inr cached →
      present cached = None →
      outcome step fetchFn (step (redis_get key) w).2 = inr result →
      (step (redis_set key (JSON.stringify result) ttl)
            (after step fetchFn (step (redis_get key) w).2)).1 = inl e →
      run step (cacheOrFetch key fetchFn ttl) w
      = (Called (redis_get key)
           :: trace step fetchFn (step (redis_get key) w).2
           ++ [Called (redis_set key (JSON.stringify result) ttl)],
         inl e,
         (step (redis_set key (JSON.stringify result) ttl)
               (after step fetchFn (step (redis_get key) w).2)).2))
  ∧ (∀ (w : W) (cached : option string) (r : QueryResult) (e : exn),
        (step (redis_get "items:all") w).1 = inr cached →
        present cached = None →
        (step (pg_query SELECT_items []) (step (redis_get "items:all") w).2).1 = inr r →
        (step (redis_set "items:all" (JSON.stringify (JArr (rows r))) 30)
              (step (pg_query SELECT_items []) (step (redis_get "items:all") w).2).2).1
        = inl e →
        run step get_items w
        = ([Called (redis_get "items:all");
            Called (pg_query SELECT_items []);
            Called (redis_set "items:all" (JSON.stringify (JArr (rows r))) 30);
            Logged "GET /items error:" e],
           inr (res_json 500 (error "Nie udało się pobrać listy itemów")),
           (step (redis_set "items:all" (JSON.stringify (JArr (rows r))) 30)
                 (step (pg_query SELECT_items [])
                       (step (redis_get "items:all") w).2).2).2))
  ∧ (∀ (id : string) (w : W) (cached : option string) (r : QueryResult) (e : exn),
        (step (redis_get ("items:" +:+ id)) w).1 = inr cached →
        present cached = None →
        (step (pg_query SELECT_item [Some (JStr id)])
              (step (redis_get ("items:" +:+ id)) w).2).1 = inr r →
        (step (redis_set ("items:" +:+ id)
                 (JSON.stringify (js_or (rows r !! 0%nat) JNull)) 60)
              (step (pg_query SELECT_item [Some (JStr id)])
                    (step (redis_get ("items:" +:+ id)) w).2).2).1
        = inl e →
        run step (get_item id) w
        = ([Called (redis_get ("items:" +:+ id));
            Called (pg_query SELECT_item [Some (JStr id)]);
            Called (redis_set ("items:" +:+ id)
                      (JSON.stringify (js_or (rows r !! 0%nat) JNull)) 60);
            Logged ("GET /items/" +:+ id +:+ " error:") e],
           inr (res_json 500 (error "Nie udało się pobrać itemu")),
           (step (redis_set ("items:" +:+ id)
                    (JSON.stringify (js_or (rows r !! 0%nat) JNull)) 60)
                 (step (pg_query SELECT_item [Some (JStr id)])
                       (step (redis_get ("items:" +:+ id)) w).2).2).2)).
Proof.
  split; [|split].
  - intros key fetchFn ttl w cached result e Hget Hmiss Hfetch Hset.
    rewrite (run_miss step key fetchFn ttl w cached Hget Hmiss), Hfetch. cbv zeta.
    rewrite Hset. reflexivity.
  - intros w cached r e Hget Hmiss Hq Hset.
    rewrite (run_get_items_miss w cached Hget Hmiss). cbv zeta.
    rewrite Hq, Hset. reflexivity.
  - intros id w cached r e Hget Hmiss Hq Hset.
    rewrite (run_get_item_miss id w cached Hget Hmiss). cbv zeta.
    rewrite Hq, Hset. reflexivity.
Qed.

(** Every run of the coordinator has one of three shapes: the read
    alone; the read and one run of the fetch function; or these and one
    write. *)
Lemma trace_cacheOrFetch (key : string) (fetchFn : prog value) (ttl : Z) (w : W) :
  trace step (cacheOrFetch key fetchFn ttl) w = [Called (redis_get key)]
  ∨ trace step (cacheOrFetch key fetchFn ttl) w
    = Called (redis_get key) :: trace step fetchFn (step (redis_get key) w).2
  ∨ ∃ result : value,
      outcome step fetchFn (step (redis_get key) w).2 = inr result
      ∧ trace step (cacheOrFetch key fetchFn ttl) w
        = Called (redis_get key)
            :: trace step fetchFn (step (redis_get key) w).2
            ++ [Called (redis_set key (JSON.stringify result) ttl)].
Proof.
  assert (trace step (cacheOrFetch key fetchFn ttl) w
          = (run step (cacheOrFetch key fetchFn ttl) w).1.1) as -> by reflexivity.
  rewrite run_cacheOrFetch.
  destruct (step (redis_get key) w).1 as [e|cached]; [left; reflexivity|].
  destruct (present cached) as [text|]; [left; reflexivity|].
  rewrite (run_parts step fetchFn).
  destruct (outcome step fetchFn (step (redis_get key) w).2) as [e|result] eqn:Hf.
  - right; left. reflexivity.
  - right; right. exists result. split; reflexivity.
Qed.

(** On a miss the fetch function is run exactly once, whether or not it
    succeeds: the calls are the read, those of one run of the fetch
    function and, when it succeeded, one write. *)
Lemma trace_miss (key : string) (fetchFn : prog value) (ttl : Z) (w : W)
    (cached : option string) :
  (step (redis_get key) w).1 = inr cached →
  present cached = None →
  ∃ tail : list event,
    trace step (cacheOrFetch key fetchFn ttl) w
    = Called (redis_get key) :: trace step fetchFn (step (redis_get key) w).2 ++ tail
    ∧ (tail = []
       ∨ ∃ result : value,
           outcome step fetchFn (step (redis_get key) w).2 = inr result
           ∧ tail = [Called (redis_set key (JSON.stringify result) ttl)]).
Proof.
  intros Hget Hmiss. unfold trace at 1.
  rewrite (run_miss step key fetchFn ttl w cached Hget Hmiss).
  destruct (outcome step fetchFn (step (redis_get key) w).2) as [e|result] eqn:Hf.
  - exists []. rewrite app_nil_r. split; [reflexivity|left; reflexivity].
  - exists [Called (redis_set key (JSON.stringify result) ttl)].
    split; [reflexivity|right; exists result; split; reflexivity].
Qed.

(** The read routes query the store at most once and write to the cache
    at most once. *)
Lemma get_items_at_most_once (w : W) :
  (count is_query (trace step get_items w) ≤ 1)%nat
  ∧ (count is_set (trace step get_items w) ≤ 1)%nat.
Proof.
  unfold trace. rewrite run_get_items, run_cacheOrFetch.
  destruct (step (redis_get "items:all") w).1 as [e|cached]; [simpl; lia|].
  destruct (present cached) as [text|].
  - destruct (JSON.parse text); simpl; lia.
  - rewrite run_fetch_all.
    destruct (step (pg_query SELECT_items []) _).1 as [e|r]; [simpl; lia|].
    cbv zeta.
    destruct (step (redis_set "items:all" _ 30) _).1; simpl; lia.
Qed.

Lemma get_item_at_most_once (id : string) (w : W) :
  (count is_query (trace step (get_item id) w) ≤ 1)%nat
  ∧ (count is_set (trace step (get_item id) w) ≤ 1)%nat.
Proof.
  unfold trace. rewrite run_get_item, run_cacheOrFetch.
  destruct (step (redis_get ("items:" +:+ id)) w).1 as [e|cached]; [simpl; lia|].
  destruct (present cached) as [text|].
  - destruct (JSON.parse text); simpl; lia.
  - rewrite run_fetch_one.
    destruct (step (pg_query SELECT_item [Some (JStr id)]) _).1 as [e|r];
      [simpl; lia|].
    cbv zeta.
    destruct (step (redis_set ("items:" +:+ id) _ 60) _).1; simpl; lia.
Qed.

(** C5, as the code has it.  On a miss [cacheOrFetch] makes the read
    and runs the fetch function exactly once.  When the fetch fails,
    nothing is written and its error is the outcome.  When the fetch
    succeeds, the serialized result is written once under the key with
    the given expiry; the result is returned when that write resolves,
    and when the write is rejected its error is the outcome and no
    result is returned.  No run of the coordinator, hit or miss, has
    more than one run of the fetch function or more than one write.
    The list route does this with key [items:all] and expiry 30, the
    detail route with key [items:<id>] and expiry 60, and neither ever
    queries or writes twice. *)
Theorem miss_fetches_once_and_populates :
  (∀ (key : string) (fetchFn : prog value) (ttl : Z) (w : W)
     (cached : option string),
      (step (redis_get key) w).1 = inr cached →
      present cached = None →
      run step (cacheOrFetch key fetchFn ttl) w
      = match outcome step fetchFn (step (redis_get key) w).2 with
        | inl e =>
          (Called (redis_get key) :: trace step fetchFn (step (redis_get key) w).2,
           inl e,
           after step fetchFn (step (redis_get key) w).2)
        | inr result =>
          (Called (redis_get key)
             :: trace step fetchFn (step (redis_get key) w).2
             ++ [Called (redis_set key (JSON.stringify result) ttl)],
           match (step (redis_set key (JSON.stringify result) ttl)
                       (after step fetchFn (step (redis_get key) w).2)).1 with
           | inl e => inl e
           | inr _ => inr result
           end,
           (step (redis_set key (JSON.stringify result) ttl)
                 (after step fetchFn (step (redis_get key) w).2)).2)
        end)
  ∧ (∀ (key : string) (fetchFn : prog value) (ttl : Z) (w : W),
        trace step (cacheOrFetch key fetchFn ttl) w = [Called (redis_get key)]
        ∨ trace step (cacheOrFetch key fetchFn ttl) w
          = Called (redis_get key) :: trace step fetchFn (step (redis_get key) w).2
        ∨ ∃ result : value,
            outcome step fetchFn (step (redis_get key) w).2 = inr result
            ∧ trace step (cacheOrFetch key fetchFn ttl) w
              = Called (redis_get key)
                  :: trace step fetchFn (step (redis_get key) w).2
                  ++ [Called (redis_set key (JSON.stringify result) ttl)])
  ∧ (∀ (w : W) (cached : option string),
        (step (redis_get "items:all") w).1 = inr cached →
        present cached = None →
        run step get_items w
        = match (step (pg_query SELECT_items []) (step (redis_get "items:all") w).2).1 with
          | inl e =>
            ([Called (redis_get "items:all");
              Called (pg_query SELECT_items []);
              Logged "GET /items error:" e],
             inr (res_json 500 (error "Nie udało się pobrać listy itemów")),
             (step (pg_query SELECT_items []) (step (redis_get "items:all") w).2).2)
          | inr r =>
            match (step (redis_set "items:all" (JSON.stringify (JArr (rows r))) 30)
                        (step (pg_query SELECT_items [])
                              (step (redis_get "items:all") w).2).2).1 with
            | inl e =>
              ([Called (redis_get "items:all");
                Called (pg_query SELECT_items []);
                Called (redis_set "items:all" (JSON.stringify (JArr (rows r))) 30);
                Logged "GET /items error:" e],
               inr (res_json 500 (error "Nie udało się pobrać listy itemów")),
               (step (redis_set "items:all" (JSON.stringify (JArr (rows r))) 30)
                     (step (pg_query SELECT_items [])
                           (step (redis_get "items:all") w).2).2).2)
            | inr _ =>
              ([Called (redis_get "items:all");
                Called (pg_query SELECT_items []);
                Called (redis_set "items:all" (JSON.stringify (JArr (rows r))) 30)],
               inr (res_json 200 (Some (JArr (rows r)))),
               (step (redis_set "items:all" (JSON.stringify (JArr (rows r))) 30)
                     (step (pg_query SELECT_items [])
                           (step (redis_get "items:all") w).2).2).2)
            end
          end)
  ∧ (∀ (id : string) (w : W) (cached : option string),
        (step (redis_get ("items:" +:+ id)) w).1 = inr cached →
        present cached = None →
        run step (get_item id) w
        = match (step (pg_query SELECT_item [Some (JStr id)])
                      (step (redis_get ("items:" +:+ id)) w).2).1 with
          | inl e =>
            ([Called (redis_get ("items:" +:+ id));
              Called (pg_query SELECT_item [Some (JStr id)]);
              Logged ("GET /items/" +:+ id +:+ " error:") e],
             inr (res_json 500 (error "Nie udało się pobrać itemu")),
             (step (pg_query SELECT_item [Some (JStr id)])
                   (step (redis_get ("items:" +:+ id)) w).2).2)
          | inr r =>
            match (step (redis_set ("items:" +:+ id)
                           (JSON.stringify (js_or (rows r !! 0%nat) JNull)) 60)
                        (step (pg_query SELECT_item [Some (JStr id)])
                              (step (redis_get ("items:" +:+ id)) w).2).2).1 with
            | inl e =>
              ([Called (redis_get ("items:" +:+ id));
                Called (pg_query SELECT_item [Some (JStr id)]);
                Called (redis_set ("items:" +:+ id)
                          (JSON.stringify (js_or (rows r !! 0%nat) JNull)) 60);
                Logged ("GET /items/" +:+ id +:+ " error:") e],
               inr (res_json 500 (error "Nie udało się pobrać itemu")),
               (step (redis_set ("items:" +:+ id)
                        (JSON.stringify (js_or (rows r !! 0%nat) JNull)) 60)
                     (step (pg_query SELECT_item [Some (JStr id)])
                           (step (redis_get ("items:" +:+ id)) w).2).2).2)
            | inr _ =>
              ([Called (redis_get ("items:" +:+ id));
                Called (pg_query SELECT_item [Some (JStr id)]);
                Called (redis_set ("items:" +:+ id)
                          (JSON.stringify (js_or (rows r !! 0%nat) JNull)) 60)],
               inr (if truthy (js_or (rows r !! 0%nat) JNull)
                    then res_json 200 (Some (js_or (rows r !! 0%nat) JNull))
                    else res_json 404 (error "Item nie znaleziony")),
               (step (redis_set ("items:" +:+ id)
                        (JSON.stringify (js_or (rows r !! 0%nat) JNull)) 60)
                     (step (pg_query SELECT_item [Some (JStr id)])
                           (step (redis_get ("items:" +:+ id)) w).2).2).2)
            end
          end)
  ∧ (∀ w : W,
        (count is_query (trace step get_items w) ≤ 1)%nat
        ∧ (count is_set (trace step get_items w) ≤ 1)%nat)
  ∧ (∀ (id : string) (w : W),
        (count is_query (trace step (get_item id) w) ≤ 1)%nat
        ∧ (count is_set (trace step (get_item id) w) ≤ 1)%nat).
Proof.
  repeat apply conj.
  - intros key fetchFn ttl w cached Hget Hmiss.
    apply (run_miss step key fetchFn ttl w cached Hget Hmiss).
  - apply trace_cacheOrFetch.
  - intros w cached Hget Hmiss. apply (run_get_items_miss w cached Hget Hmiss).
  - intros id w cached Hget Hmiss. apply (run_get_item_miss id w cached Hget Hmiss).
  - apply get_items_at_most_once.
  - apply get_item_at_most_once.
Qed.

End Coordinator.

(** ** The write routes *)

Section WritePaths.

Context {W : Type}.
Variable step : ∀ o : op, W → (exn + reply o) * W.

Local Abbreviation insert_of body :=
  (pg_query INSERT_item
     [field "name" body; Some (js_or (field "description" body) JNull)]).
Local Abbreviation update_of id body :=
  (pg_query UPDATE_item
     [field "name" body; Some (js_or (field "description" body) JNull);
      Some (JStr id)]).
Local Abbreviation delete_of id := (pg_query DELETE_item [Some (JStr id)]).
Local Abbreviation del_all := (redis_del "items:all").
Local Abbreviation del_one id := (redis_del ("items:" +:+ id)).

Ltac settle :=
  repeat match goal with
         | |- context [match (step ?o ?w).1 with _ => _ end] =>
           destruct (step o w).1 eqn:?
         | |- context [match rows ?r with _ => _ end] => destruct (rows r) eqn:?
         | |- context [if rowCount ?r =? 0 then _ else _] =>
           destruct (rowCount r =? 0) eqn:?
         end.

Lemma post_items_invalidation (body : list (string * value)) (w : W) :
  (∀ k : string,
      In (Called (redis_del k)) (trace step (post_items body) w) →
      resolved (step (insert_of body) w).1 = true
      ∧ k = "items:all"
      ∧ ∃ rest, trace step (post_items body) w = Called (insert_of body) :: rest)
  ∧ (∀ resp : response,
        outcome step (post_items body) w = inr resp →
        status resp = 201 →
        resolved (step (insert_of body) w).1 = true
        ∧ trace step (post_items body) w
          = [Called (insert_of body); Called del_all]).
Proof.
  unfold trace, outcome.
  destruct (truthy' (field "name" body)) eqn:Hname.
  - rewrite (run_post_items step body w Hname). cbv zeta. settle; cbn [fst snd].
    all: split; [intros k Hin|intros resp Hresp Hstatus].
    all: try (simpl in Hin; intuition (try discriminate)).
    all: try (injection Hresp as <-; simpl in Hstatus; discriminate).
    all: try (repeat split; eauto; congruence).
    all: try (left; congruence); try (right; congruence).
  - rewrite (run_post_items_invalid step body w Hname). cbn [fst snd].
    split; [intros k []|intros resp Hresp Hstatus].
    injection Hresp as <-; simpl in Hstatus; discriminate.
Qed.

Lemma put_item_invalidation (id : string) (body : list (string * value)) (w : W) :
  (∀ k : string,
      In (Called (redis_del k)) (trace step (put_item id body) w) →
      resolved (step (update_of id body) w).1 = true
      ∧ (k = "items:all" ∨ k = "items:" +:+ id)
      ∧ ∃ rest, trace step (put_item id body) w = Called (update_of id body) :: rest)
  ∧ (∀ resp : response,
        outcome step (put_item id body) w = inr resp →
        status resp = 200 →
        resolved (step (update_of id body) w).1 = true
        ∧ trace step (put_item id body) w
          = [Called (update_of id body); Called del_all; Called (del_one id)]).
Proof.
  unfold trace, outcome.
  destruct (truthy' (field "name" body)) eqn:Hname.
  - rewrite (run_put_item step id body w Hname). cbv zeta. settle; cbn [fst snd].
    all: split; [intros k Hin|intros resp Hresp Hstatus].
    all: try (simpl in Hin; intuition (try discriminate)).
    all: try (injection Hresp as <-; simpl in Hstatus; discriminate).
    all: try (repeat split; eauto; congruence).
    all: try (left; congruence); try (right; congruence).
  - rewrite (run_put_item_invalid step id body w Hname). cbn [fst snd].
    split; [intros k []|intros resp Hresp Hstatus].
    injection Hresp as <-; simpl in Hstatus; discriminate.
Qed.

Lemma delete_item_invalidation (id : string) (w : W) :
  (∀ k : string,
      In (Called (redis_del k)) (trace step (delete_item id) w) →
      resolved (step (delete_of id) w).1 = true
      ∧ (k = "items:all" ∨ k = "items:" +:+ id)
      ∧ ∃ rest, trace step (delete_item id) w = Called (delete_of id) :: rest)
  ∧ (∀ resp : response,
        outcome step (delete_item id) w = inr resp →
        status resp = 204 →
        resolved (step (delete_of id) w).1 = true
        ∧ trace step (delete_item id) w
          = [Called (delete_of id); Called del_all; Called (del_one id)]).
Proof.
  unfold trace, outcome.
  rewrite (run_delete_item step id w). cbv zeta. settle; cbn [fst snd].
  all: split; [intros k Hin|intros resp Hresp Hstatus].
  all: try (simpl in Hin; intuition (try discriminate)).
  all: try (injection Hresp as <-; simpl in Hstatus; discriminate).
  all: try (repeat split; eauto; congruence).
  all: try (left; congruence); try (right; congruence).
Qed.

(** A falsy [description] reaches the store as [null]. *)
Lemma js_or_falsy (x : jsval) (d : value) : truthy' x = false → js_or x d = d.
Proof.
  destruct x as [v|]; [|reflexivity].
  simpl. intros ->. reflexivity.
Qed.

(** C9. In every run of a write route, a deletion from the cache is
    only made after the store statement was sent and had resolved, and
    only for the keys of the route: [items:all] for create, [items:all]
    and [items:<id>] for replace and delete.  A run that answers with
    the success status consists of the statement followed by exactly
    these deletions. *)
Theorem invalidation_follows_commit :
  (∀ (body : list (string * value)) (w : W),
      (∀ k : string,
          In (Called (redis_del k)) (trace step (post_items body) w) →
          resolved (step (insert_of body) w).1 = true
          ∧ k = "items:all"
          ∧ ∃ rest, trace step (post_items body) w = Called (insert_of body) :: rest)
      ∧ (∀ resp : response,
            outcome step (post_items body) w = inr resp →
            status resp = 201 →
            resolved (step (insert_of body) w).1 = true
            ∧ trace step (post_items body) w
              = [Called (insert_of body); Called del_all]))
  ∧ (∀ (id : string) (body : list (string * value)) (w : W),
        (∀ k : string,
            In (Called (redis_del k)) (trace step (put_item id body) w) →
            resolved (step (update_of id body) w).1 = true
            ∧ (k = "items:all" ∨ k = "items:" +:+ id)
            ∧ ∃ rest,
                trace step (put_item id body) w = Called (update_of id body) :: rest)
        ∧ (∀ resp : response,
              outcome step (put_item id body) w = inr resp →
              status resp = 200 →
              resolved (step (update_of id body) w).1 = true
              ∧ trace step (put_item id body) w
                = [Called (update_of id body); Called del_all; Called (del_one id)]))
  ∧ (∀ (id : string) (w : W),
        (∀ k : string,
            In (Called (redis_del k)) (trace step (delete_item id) w) →
            resolved (step (delete_of id) w).1 = true
            ∧ (k = "items:all" ∨ k = "items:" +:+ id)
            ∧ ∃ rest, trace step (delete_item id) w = Called (delete_of id) :: rest)
        ∧ (∀ resp : response,
              outcome step (delete_item id) w = inr resp →
              status resp = 204 →
              resolved (step (delete_of id) w).1 = true
              ∧ trace step (delete_item id) w
                = [Called (delete_of id); Called del_all; Called (del_one id)])).
Proof.
  split; [|split].
  - apply post_items_invalidation.
  - apply put_item_invalidation.
  - apply delete_item_invalidation.
Qed.

(** C8. When the UPDATE of the replace route returns no row, or the
    DELETE of the delete route reports a row count of 0, the route
    answers 404 and its only call is the statement: nothing is deleted
    from the cache. *)
Theorem not_found_skips_invalidation :
  (∀ (id : string) (body : list (string * value)) (w : W) (r : QueryResult),
      truthy' (field "name" body) = true →
      (step (update_of id body) w).1 = inr r →
      rows r = [] →
      run step (put_item id body) w
      = ([Called (update_of id body)],
         inr (res_json 404 (error "Item nie istnieje")),
         (step (update_of id body) w).2)
      ∧ count is_del (trace step (put_item id body) w) = 0%nat)
  ∧ (∀ (id : string) (w : W) (r : QueryResult),
        (step (delete_of id) w).1 = inr r →
        rowCount r = 0 →
        run step (delete_item id) w
        = ([Called (delete_of id)],
           inr (res_json 404 (error "Item nie znaleziony")),
           (step (delete_of id) w).2)
        ∧ count is_del (trace step (delete_item id) w) = 0%nat).
Proof.
  split.
  - intros id body w r Hname Hq Hrows. unfold trace.
    rewrite (run_put_item step id body w Hname). cbv zeta. rewrite Hq, Hrows.
    split; reflexivity.
  - intros id w r Hq Hcount. unfold trace.
    rewrite run_delete_item. cbv zeta. rewrite Hq, Hcount.
    split; reflexivity.
Qed.


(** The parameter sent for a falsy [description] is [null]. *)
Lemma falsy_description_sent_as_null (body : list (string * value)) :
  truthy' (field "name" body) = true →
  truthy' (field "description" body) = false →
  (∀ w : W,
      ∃ rest,
        trace step (post_items body) w
        = Called (pg_query INSERT_item [field "name" body; Some JNull]) :: rest)
  ∧ (∀ (id : string) (w : W),
        ∃ rest,
          trace step (put_item id body) w
          = Called (pg_query UPDATE_item [field "name" body; Some JNull; Some (JStr id)])
              :: rest).
Proof.
  intros Hname Hdesc. split.
  - intros w. unfold trace. rewrite (run_post_items step body w Hname). cbv zeta.
    rewrite (js_or_falsy _ _ Hdesc). settle; cbn [fst snd]; eauto.
  - intros id w. unfold trace. rewrite (run_put_item step id body w Hname). cbv zeta.
    rewrite (js_or_falsy _ _ Hdesc). settle; cbn [fst snd]; eauto.
Qed.

End WritePaths.

(** ** The routes on the in-memory service *)

Section InMemory.

Import Mem.

Lemma step_query (text : sql) (params : list jsval) (w : world) :
  pg_faults w = [] → Mem.step (pg_query text params) w = query text params w.
Proof.
  intros Hf. unfold Mem.step, pg_fault. rewrite Hf. reflexivity.
Qed.

Lemma step_get (key : string) (w : world) :
  redis_faults w = [] → Mem.step (redis_get key) w = (inr (live key w), w).
Proof. intros Hf. unfold Mem.step, redis_fault. rewrite Hf. reflexivity. Qed.

Lemma step_set (key v : string) (ttl : Z) (w : world) :
  redis_faults w = [] → 0 < ttl →
  Mem.step (redis_set key v ttl) w
  = (inr "OK", set_cache (<[key := (v, now w + ttl)]> (cache w)) w).
Proof.
  intros Hf Httl. unfold Mem.step, redis_fault. rewrite Hf.
  destruct (Z.leb_spec ttl 0); [lia|reflexivity].
Qed.

Lemma step_del (key : string) (w : world) :
  redis_faults w = [] →
  Mem.step (redis_del key) w
  = (inr (match live key w with Some _ => 1 | None => 0 end),
     set_cache (delete key (cache w)) w).
Proof. intros Hf. unfold Mem.step, redis_fault. rewrite Hf. reflexivity. Qed.

Lemma truthy_param (x : jsval) :
  truthy' x = true → ∃ text, param x = Some text.
Proof.
  destruct x as [[|b|n|s|vs|fs]|]; simpl; try discriminate; eauto.
Qed.

Lemma falsy_param (x : jsval) :
  truthy' x = false → param (Some (js_or x JNull)) = None.
Proof. intros Hx. rewrite (js_or_falsy _ _ Hx). reflexivity. Qed.

Lemma created_description_null (body : list (string * value)) (w : world) :
  truthy' (field "name" body) = true →
  truthy' (field "description" body) = false →
  pg_faults w = [] →
  redis_faults w = [] →
  ∃ it : item,
    outcome Mem.step (post_items body) w = inr (res_json 201 (Some (row it)))
    ∧ item_description it = None
    ∧ prop "description" (row it) = Some JNull
    ∧ table (after Mem.step (post_items body) w) = table w ++ [it].
Proof.
  intros Hname Hdesc Hpg Hredis.
  destruct (truthy_param _ Hname) as [n Hn].
  exists {| item_id := serial w; item_name := n; item_description := None;
            item_created_at := now w |}.
  assert (Mem.step
            (pg_query INSERT_item
               [field "name" body; Some (js_or (field "description" body) JNull)]) w
          = (inr (result [{| item_id := serial w; item_name := n;
                             item_description := None;
                             item_created_at := now w |}]),
             set_store
               (table w ++ [{| item_id := serial w; item_name := n;
                               item_description := None;
                               item_created_at := now w |}])
               (serial w + 1) w)) as Hq.
  { rewrite (step_query _ _ w Hpg). unfold query.
    rewrite Hn, (falsy_param _ Hdesc). reflexivity. }
  unfold outcome, after. rewrite (run_post_items Mem.step body w Hname). cbv zeta.
  rewrite Hq. cbn [fst snd].
  rewrite step_del by exact Hredis. cbn [fst snd].
  repeat apply conj; reflexivity.
Qed.

Lemma replaced_description_null
    (id : string) (body : list (string * value)) (w : world) (i : Z) :
  truthy' (field "name" body) = true →
  truthy' (field "description" body) = false →
  pg_faults w = [] →
  redis_faults w = [] →
  int4in id = Some i →
  existsb (has_id i) (table w) = true →
  ∃ it : item,
    outcome Mem.step (put_item id body) w = inr (res_json 200 (Some (row it)))
    ∧ item_id it = i
    ∧ item_description it = None
    ∧ In it (table (after Mem.step (put_item id body) w))
    ∧ ∀ it' : item,
        In it' (table (after Mem.step (put_item id body) w)) →
        item_id it' = i → item_description it' = None.
Proof.
  intros Hname Hdesc Hpg Hredis Hid Hex.
  destruct (truthy_param _ Hname) as [n Hn].
  set (change := λ it : item,
         if matching (Some i) it
         then {| item_id := item_id it; item_name := n; item_description := None;
                 item_created_at := item_created_at it |}
         else it).
  assert (Mem.step
            (pg_query UPDATE_item
               [field "name" body; Some (js_or (field "description" body) JNull);
                Some (JStr id)]) w
          = (inr (result (map change (List.filter (matching (Some i)) (table w)))),
             set_store (map change (table w)) (serial w) w)) as Hq.
  { rewrite (step_query _ _ w Hpg). unfold query, id_param.
    change (param (Some (JStr id))) with (Some id). cbv beta iota.
    rewrite Hid, Hn, (falsy_param _ Hdesc). reflexivity. }
  apply existsb_exists in Hex as (it0 & Hin0 & Hid0).
  assert (In it0 (List.filter (matching (Some i)) (table w))) as Hm
      by (apply filter_In; split; assumption).
  destruct (List.filter (matching (Some i)) (table w)) as [|first rest] eqn:Hfilter;
    [destruct Hm|].
  assert (In first (table w) ∧ matching (Some i) first = true) as [Hin1 Hm1].
  { apply filter_In. rewrite Hfilter. left. reflexivity. }
  exists (change first).
  unfold outcome, after. rewrite (run_put_item Mem.step id body w Hname). cbv zeta.
  rewrite Hq. cbn [fst snd result rows map].
  rewrite !step_del by exact Hredis. cbn [fst snd].
  assert (∀ it, matching (Some i) it = true → item_id it = i) as Hmatch.
  { intros it Hit. apply Z.eqb_eq. exact Hit. }
  repeat apply conj.
  - reflexivity.
  - unfold change. rewrite Hm1. apply Hmatch, Hm1.
  - unfold change. rewrite Hm1. reflexivity.
  - apply in_map. exact Hin1.
  - intros it' Hin' Hid'. cbn [table set_cache set_store] in Hin'.
    apply in_map_iff in Hin' as (x & <- & Hx). unfold change in *.
    destruct (matching (Some i) x) eqn:Hmx; [reflexivity|].
    unfold matching, has_id in Hmx. apply Z.eqb_neq in Hmx. contradiction.
Qed.

Lemma filter_none {A : Type} (f : A → bool) (l : list A) :
  existsb f l = false → List.filter f l = [].
Proof.
  induction l as [|x l IH]; [reflexivity|]. simpl.
  destruct (f x); [discriminate|]. exact IH.
Qed.

Lemma live_after_set (key v : string) (ttl dt : Z) (w : world) :
  0 ≤ dt < ttl →
  live key (elapse dt (set_cache (<[key := (v, now w + ttl)]> (cache w)) w)) = Some v.
Proof.
  intros Hdt. unfold live, elapse, set_cache. cbn [cache now].
  rewrite lookup_insert_eq.
  destruct (Z.ltb_spec (now w + dt) (now w + ttl)); [reflexivity|lia].
Qed.

Lemma not_found_is_memoized (id : string) (i dt : Z) (w : world) :
  redis_faults w = [] →
  pg_faults w = [] →
  live ("items:" +:+ id) w = None →
  int4in id = Some i →
  existsb (has_id i) (table w) = false →
  0 ≤ dt < 60 →
  trace Mem.step (get_item id) w
  = [Called (redis_get ("items:" +:+ id));
     Called (pg_query SELECT_item [Some (JStr id)]);
     Called (redis_set ("items:" +:+ id) "null" 60)]
  ∧ ∀ later : world,
      cache later = cache (after Mem.step (get_item id) w) →
      now later = now w + dt →
      redis_faults later = [] →
      run Mem.step (get_item id) later
      = ([Called (redis_get ("items:" +:+ id))],
         inr (res_json 404 (error "Item nie znaleziony")),
         later).
Proof.
  intros Hredis Hpg Hlive Hid Hnone Hdt.
  assert ((Mem.step (redis_get ("items:" +:+ id)) w) = (inr None, w)) as Hget
      by (rewrite step_get, Hlive; [reflexivity|assumption]).
  assert (Mem.step (pg_query SELECT_item [Some (JStr id)]) w
          = (inr (result []), w)) as Hq.
  { rewrite (step_query _ _ w Hpg). unfold query, id_param.
    change (param (Some (JStr id))) with (Some id). cbv beta iota.
    rewrite Hid, (filter_none (matching (Some i)) (table w) Hnone). reflexivity. }
  assert (run Mem.step (get_item id) w
          = ([Called (redis_get ("items:" +:+ id));
              Called (pg_query SELECT_item [Some (JStr id)]);
              Called (redis_set ("items:" +:+ id) "null" 60)],
             inr (res_json 404 (error "Item nie znaleziony")),
             set_cache (<["items:" +:+ id := ("null", now w + 60)]> (cache w)) w))
    as Hrun.
  { assert ((Mem.step (redis_get ("items:" +:+ id)) w).1 = inr None) as Hmiss
        by (rewrite Hget; reflexivity).
    rewrite (run_get_item_miss Mem.step id w None Hmiss eq_refl). cbv zeta.
    rewrite Hget. cbn [fst snd]. rewrite Hq. cbn [fst snd result rows map lookup].
    change (js_or ([] !! 0%nat) JNull) with JNull.
    change (JSON.stringify JNull) with "null".
    rewrite step_set by (assumption || lia). reflexivity. }
  split.
  - unfold trace. rewrite Hrun. reflexivity.
  - intros later Hcache Hnow Hf. unfold after in Hcache. rewrite Hrun in Hcache.
    cbn [snd set_cache cache] in Hcache.
    assert (live ("items:" +:+ id) later = Some "null") as Hhit.
    { unfold live. rewrite Hcache, lookup_insert_eq, Hnow.
      destruct (Z.ltb_spec (now w + dt) (now w + 60)); [reflexivity|lia]. }
    rewrite run_get_item, run_cacheOrFetch, step_get, Hhit by assumption.
    reflexivity.
Qed.

(** X13. The list route on the in-memory service: a miss stores the
    list for 30 seconds; until then the list is answered from the cache
    alone, and after that the entry is gone. *)
Lemma list_is_cached_for_30_seconds (w : world) :
  redis_faults w = [] →
  pg_faults w = [] →
  live "items:all" w = None →
  run Mem.step get_items w
  = ([Called (redis_get "items:all");
      Called (pg_query SELECT_items []);
      Called (redis_set "items:all"
                (JSON.stringify (JArr (map row (newest_first (table w))))) 30)],
     inr (res_json 200 (Some (JArr (map row (newest_first (table w)))))),
     set_cache
       (<["items:all" :=
            (JSON.stringify (JArr (map row (newest_first (table w)))), now w + 30)]>
          (cache w)) w)
  ∧ (∀ later : world,
        cache later = cache (after Mem.step get_items w) →
        redis_faults later = [] →
        now w ≤ now later < now w + 30 →
        run Mem.step get_items later
        = ([Called (redis_get "items:all")],
           inr (res_json 200 (Some (JArr (map row (newest_first (table w)))))),
           later))
  ∧ (∀ later : world,
        cache later = cache (after Mem.step get_items w) →
        now w + 30 ≤ now later →
        live "items:all" later = None).
Proof.
  intros Hredis Hpg Hlive.
  assert (Mem.step (redis_get "items:all") w = (inr None, w)) as Hget
      by (rewrite step_get, Hlive; [reflexivity|assumption]).
  assert (run Mem.step get_items w
          = ([Called (redis_get "items:all");
              Called (pg_query SELECT_items []);
              Called (redis_set "items:all"
                        (JSON.stringify (JArr (map row (newest_first (table w))))) 30)],
             inr (res_json 200 (Some (JArr (map row (newest_first (table w)))))),
             set_cache
               (<["items:all" :=
                    (JSON.stringify (JArr (map row (newest_first (table w)))),
                     now w + 30)]> (cache w)) w)) as Hrun.
  { assert ((Mem.step (redis_get "items:all") w).1 = inr None) as Hmiss
        by (rewrite Hget; reflexivity).
    rewrite (run_get_items_miss Mem.step w None Hmiss eq_refl). cbv zeta.
    rewrite Hget. cbn [fst snd].
    rewrite (step_query _ _ w Hpg). cbn [query fst snd result rows].
    rewrite step_set by (assumption || lia). reflexivity. }
  split; [exact Hrun|]. unfold after. rewrite Hrun. cbn [snd set_cache cache].
  split.
  - intros later Hcache Hf Hnow.
    assert (live "items:all" later
            = Some (JSON.stringify (JArr (map row (newest_first (table w)))))) as Hhit.
    { unfold live. rewrite Hcache, lookup_insert_eq.
      destruct (Z.ltb_spec (now later) (now w + 30)); [reflexivity|lia]. }
    rewrite run_get_items, run_cacheOrFetch, step_get, Hhit by assumption.
    cbn [fst snd].
    rewrite (parsed_present _ _ (parse_stringify _)), parse_stringify. reflexivity.
  - intros later Hcache Hnow. unfold live. rewrite Hcache, lookup_insert_eq.
    destruct (Z.ltb_spec (now later) (now w + 30)); [lia|reflexivity].
Qed.

End InMemory.

(** C10. For a body with a truthy [name] and a falsy [description]
    (missing, [null], [""], [0] or [false]), the create and replace
    routes send [null] as the description parameter, in any
    environment.  On the in-memory service, the created item is stored
    with no description and returned with [description: null]; a
    replaced item likewise, and no item with that id keeps a
    description. *)
Theorem falsy_description_is_null (body : list (string * value)) :
  truthy' (field "name" body) = true →
  truthy' (field "description" body) = false →
  (∀ (W : Type) (step : ∀ o : op, W → (exn + reply o) * W),
      (∀ w : W,
          ∃ rest,
            trace step (post_items body) w
            = Called (pg_query INSERT_item [field "name" body; Some JNull]) :: rest)
      ∧ (∀ (id : string) (w : W),
            ∃ rest,
              trace step (put_item id body) w
              = Called (pg_query UPDATE_item
                          [field "name" body; Some JNull; Some (JStr id)]) :: rest))
  ∧ (∀ w : Mem.world,
        Mem.pg_faults w = [] →
        Mem.redis_faults w = [] →
        ∃ it : Mem.item,
          outcome Mem.step (post_items body) w
          = inr (res_json 201 (Some (Mem.row it)))
          ∧ Mem.item_description it = None
          ∧ prop "description" (Mem.row it) = Some JNull
          ∧ Mem.table (after Mem.step (post_items body) w) = Mem.table w ++ [it])
  ∧ (∀ (id : string) (i : Z) (w : Mem.world),
        Mem.pg_faults w = [] →
        Mem.redis_faults w = [] →
        Mem.int4in id = Some i →
        existsb (Mem.has_id i) (Mem.table w) = true →
        ∃ it : Mem.item,
          outcome Mem.step (put_item id body) w
          = inr (res_json 200 (Some (Mem.row it)))
          ∧ Mem.item_id it = i
          ∧ Mem.item_description it = None
          ∧ In it (Mem.table (after Mem.step (put_item id body) w))
          ∧ ∀ it' : Mem.item,
              In it' (Mem.table (after Mem.step (put_item id body) w)) →
              Mem.item_id it' = i → Mem.item_description it' = None).
Proof.
  intros Hname Hdesc. split; [|split].
  - intros W step. apply falsy_description_sent_as_null; assumption.
  - intros w Hpg Hredis. apply created_description_null; assumption.
  - intros id i w Hpg Hredis Hid Hex. apply replaced_description_null; assumption.
Qed.

(** ** The properties at concrete inputs *)

(** C6 on the mocked clients: the cache answers the text of a list. *)
Lemma hit_witness :
  (Mock.step (redis_get "items:all") Scenario.cached_list).1 = inr (Some "[1,2]")
  ∧ JSON.parse "[1,2]" = inr (JArr [JNum 1; JNum 2])
  ∧ run Mock.step (cacheOrFetch "items:all" fetch_all 30) Scenario.cached_list
    = ([Called (redis_get "items:all")], inr (JArr [JNum 1; JNum 2]),
       (Mock.step (redis_get "items:all") Scenario.cached_list).2).
Proof.
  split; [reflexivity|]. split; [reflexivity|].
  apply (hit_returns_cached_without_fetch Mock.step "items:all" fetch_all 30
           Scenario.cached_list "[1,2]" (JArr [JNum 1; JNum 2]));
    reflexivity.
Defined.

(** C7 on the mocked clients: the cache is empty and the query is
    rejected. *)
Lemma fetch_failure_witness :
  (Mock.step (redis_get "items:all") Scenario.store_down).1 = inr None
  ∧ present None = None
  ∧ outcome Mock.step fetch_all (Mock.step (redis_get "items:all") Scenario.store_down).2
    = inl Mock.down
  ∧ run Mock.step (cacheOrFetch "items:all" fetch_all 30) Scenario.store_down
    = (Called (redis_get "items:all")
         :: trace Mock.step fetch_all
              (Mock.step (redis_get "items:all") Scenario.store_down).2,
       inl Mock.down,
       after Mock.step fetch_all
         (Mock.step (redis_get "items:all") Scenario.store_down).2).
Proof.
  split; [reflexivity|]. split; [reflexivity|]. split; [reflexivity|].
  apply (fetch_failure_rethrown_without_write Mock.step "items:all" fetch_all 30
           Scenario.store_down None Mock.down);
    reflexivity.
Defined.

(** C1, as the code has it, on the empty in-memory service: item 1 is
    looked up before it exists, with the cache answering and with its
    write rejected. *)
Lemma absence_witness :
  (run Mem.step (cacheOrFetch "items:1" (fetch_one "1") 60) Mem.empty
   = ([Called (redis_get "items:1");
       Called (pg_query SELECT_item [Some (JStr "1")]);
       Called (redis_set "items:1" "null" 60)],
      inr JNull,
      (Mem.step (redis_set "items:1" "null" 60)
         (after Mem.step (fetch_one "1")
            (Mem.step (redis_get "items:1") Mem.empty).2)).2)
   ∧ ∀ (fetchFn' : prog value) (ttl' : Z) (w' : Mem.world),
       (Mem.step (redis_get "items:1") w').1 = inr (Some "null") →
       run Mem.step (cacheOrFetch "items:1" fetchFn' ttl') w'
       = ([Called (redis_get "items:1")], inr JNull,
          (Mem.step (redis_get "items:1") w').2))
  ∧ run Mem.step (cacheOrFetch "items:1" (fetch_one "1") 60) Scenario.cache_write_down
    = ([Called (redis_get "items:1");
        Called (pg_query SELECT_item [Some (JStr "1")]);
        Called (redis_set "items:1" "null" 60)],
       inl Mem.unreachable,
       (Mem.step (redis_set "items:1" "null" 60)
          (after Mem.step (fetch_one "1")
             (Mem.step (redis_get "items:1") Scenario.cache_write_down).2)).2).
Proof.
  split.
  - exact (absence_is_cached Mem.step "items:1" (fetch_one "1") 60 Mem.empty None
             eq_refl eq_refl eq_refl).
  - exact (proj1 (absence_is_cached Mem.step "items:1" (fetch_one "1") 60
                    Scenario.cache_write_down None eq_refl eq_refl eq_refl)).
Defined.

(** C1 fails as stated: on the empty in-memory service the lookup of
    item 1 writes the text [null] under [items:1], and the next lookup
    is answered from that entry with no query. *)
Lemma absence_written_then_served :
  trace Mem.step (cacheOrFetch "items:1" (fetch_one "1") 60) Mem.empty
  = [Called (redis_get "items:1");
     Called (pg_query SELECT_item [Some (JStr "1")]);
     Called (redis_set "items:1" "null" 60)]
  ∧ run Mem.step (cacheOrFetch "items:1" (fetch_one "1") 60)
      (after Mem.step (cacheOrFetch "items:1" (fetch_one "1") 60) Mem.empty)
    = ([Called (redis_get "items:1")], inr JNull,
       after Mem.step (cacheOrFetch "items:1" (fetch_one "1") 60) Mem.empty).
Proof. split; reflexivity. Qed.

(** The not-found answer outlives the creation of the item: item 1 is
    looked up, then created, and the next lookup within the expiry is
    still answered 404 from the cache. *)
Example stale_not_found_after_create :
  map Mem.item_id (Mem.table (after Mem.step (post_items Scenario.named) Scenario.looked_up))
  = [1]
  ∧ trace Mem.step (get_item "1")
      (Mem.elapse 59 (after Mem.step (post_items Scenario.named) Scenario.looked_up))
    = [Called (redis_get "items:1")]
  ∧ outcome Mem.step (get_item "1")
      (Mem.elapse 59 (after Mem.step (post_items Scenario.named) Scenario.looked_up))
    = inr (res_json 404 (error "Item nie znaleziony"))
  ∧ outcome Mem.step (get_item "1")
      (Mem.elapse 60 (after Mem.step (post_items Scenario.named) Scenario.looked_up))
    = inr (res_json 200
             (Some (JObj [("id", JNum 1); ("name", JStr "A"); ("description", JNull);
                          ("created_at", JStr "2025-01-01T00:00:00.000Z")]))).
Proof. repeat split; reflexivity. Qed.

(** C2 fails as stated: with the cache down, the coordinator makes the
    read and fails; no query is sent and the list route answers 500. *)
Lemma read_failure_is_not_a_miss :
  trace Mem.step (cacheOrFetch "items:all" fetch_all 30) Scenario.cache_down
  = [Called (redis_get "items:all")]
  ∧ outcome Mem.step (cacheOrFetch "items:all" fetch_all 30) Scenario.cache_down
    = inl Mem.unreachable
  ∧ outcome Mem.step get_items Scenario.cache_down
    = inr (res_json 500 (error "Nie udało się pobrać listy itemów")).
Proof. repeat split; reflexivity. Qed.

(** C2, as the code has it, on the in-memory service with the cache
    down. *)
Lemma read_failure_witness :
  (Mem.step (redis_get "items:all") Scenario.cache_down).1 = inl Mem.unreachable
  ∧ (Mem.step (redis_get ("items:" +:+ "1")) Scenario.cache_down).1 = inl Mem.unreachable
  ∧ run Mem.step (cacheOrFetch "items:all" fetch_all 30) Scenario.cache_down
    = ([Called (redis_get "items:all")], inl Mem.unreachable,
       (Mem.step (redis_get "items:all") Scenario.cache_down).2)
  ∧ run Mem.step get_items Scenario.cache_down
    = ([Called (redis_get "items:all"); Logged "GET /items error:" Mem.unreachable],
       inr (res_json 500 (error "Nie udało się pobrać listy itemów")),
       (Mem.step (redis_get "items:all") Scenario.cache_down).2)
  ∧ run Mem.step (get_item "1") Scenario.cache_down
    = ([Called (redis_get ("items:" +:+ "1"));
        Logged ("GET /items/" +:+ "1" +:+ " error:") Mem.unreachable],
       inr (res_json 500 (error "Nie udało się pobrać itemu")),
       (Mem.step (redis_get ("items:" +:+ "1")) Scenario.cache_down).2).
Proof.
  destruct (read_failure_rethrown_without_fetch Mem.step) as (Hco & Hlist & Hone).
  split; [reflexivity|]. split; [reflexivity|]. split; [|split].
  - apply Hco. reflexivity.
  - apply Hlist. reflexivity.
  - apply Hone. reflexivity.
Defined.

(** C3 fails as stated: the read misses, the query returns the empty
    list, the write is rejected, and the coordinator fails instead of
    returning the list; the list route answers 500. *)
Lemma write_failure_loses_the_value :
  trace Mem.step (cacheOrFetch "items:all" fetch_all 30) Scenario.cache_write_down
  = [Called (redis_get "items:all");
     Called (pg_query SELECT_items []);
     Called (redis_set "items:all" "[]" 30)]
  ∧ outcome Mem.step fetch_all
      (Mem.step (redis_get "items:all") Scenario.cache_write_down).2
    = inr (JArr [])
  ∧ outcome Mem.step (cacheOrFetch "items:all" fetch_all 30) Scenario.cache_write_down
    = inl Mem.unreachable
  ∧ outcome Mem.step get_items Scenario.cache_write_down
    = inr (res_json 500 (error "Nie udało się pobrać listy itemów")).
Proof. repeat split; reflexivity. Qed.

(** C3, as the code has it, on the in-memory service whose second cache
    call is rejected. *)
Lemma write_failure_witness :
  run Mem.step (cacheOrFetch "items:all" fetch_all 30) Scenario.cache_write_down
  = (Called (redis_get "items:all")
       :: trace Mem.step fetch_all
            (Mem.step (redis_get "items:all") Scenario.cache_write_down).2
       ++ [Called (redis_set "items:all" (JSON.stringify (JArr [])) 30)],
     inl Mem.unreachable,
     (Mem.step (redis_set "items:all" (JSON.stringify (JArr [])) 30)
        (after Mem.step fetch_all
           (Mem.step (redis_get "items:all") Scenario.cache_write_down).2)).2)
  ∧ run Mem.step get_items Scenario.cache_write_down
    = ([Called (redis_get "items:all");
        Called (pg_query SELECT_items []);
        Called (redis_set "items:all" (JSON.stringify (JArr [])) 30);
        Logged "GET /items error:" Mem.unreachable],
       inr (res_json 500 (error "Nie udało się pobrać listy itemów")),
       after Mem.step (cacheOrFetch "items:all" fetch_all 30)
         Scenario.cache_write_down)
  ∧ run Mem.step (get_item "1") Scenario.cache_write_down
    = ([Called (redis_get ("items:" +:+ "1"));
        Called (pg_query SELECT_item [Some (JStr "1")]);
        Called (redis_set ("items:" +:+ "1") (JSON.stringify JNull) 60);
        Logged ("GET /items/" +:+ "1" +:+ " error:") Mem.unreachable],
       inr (res_json 500 (error "Nie udało się pobrać itemu")),
       after Mem.step (cacheOrFetch "items:1" (fetch_one "1") 60)
         Scenario.cache_write_down).
Proof.
  destruct (write_failure_rethrown Mem.step) as (Hco & Hlist & Hone).
  split; [|split].
  - apply (Hco "items:all" fetch_all 30 Scenario.cache_write_down None (JArr [])
               Mem.unreachable);
      reflexivity.
  - apply (Hlist Scenario.cache_write_down None (Mem.result []) Mem.unreachable);
      reflexivity.
  - apply (Hone "1" Scenario.cache_write_down None (Mem.result []) Mem.unreachable);
      reflexivity.
Defined.



(** C5 fails as stated: item 1 exists and is not in the cache, the
    query returns it, the write is rejected, and the coordinator fails
    instead of returning the item; nothing is stored under the key, and
    the detail route answers 500. *)
Lemma miss_without_result :
  Mem.live "items:1" Case.one_item_write_down = None
  ∧ trace Mem.step (cacheOrFetch "items:1" (fetch_one "1") 60) Case.one_item_write_down
    = [Called (redis_get "items:1");
       Called (pg_query SELECT_item [Some (JStr "1")]);
       Called (redis_set "items:1"
                 (JSON.stringify
                    (JObj [("id", JNum 1); ("name", JStr "A"); ("description", JNull);
                           ("created_at", JStr "2025-01-01T00:00:00.000Z")]))
                 60)]
  ∧ outcome Mem.step (fetch_one "1")
      (Mem.step (redis_get "items:1") Case.one_item_write_down).2
    = inr (JObj [("id", JNum 1); ("name", JStr "A"); ("description", JNull);
                 ("created_at", JStr "2025-01-01T00:00:00.000Z")])
  ∧ outcome Mem.step (cacheOrFetch "items:1" (fetch_one "1") 60)
      Case.one_item_write_down
    = inl Mem.unreachable
  ∧ Mem.live "items:1"
      (after Mem.step (cacheOrFetch "items:1" (fetch_one "1") 60)
         Case.one_item_write_down)
    = None
  ∧ outcome Mem.step (get_item "1") Case.one_item_write_down
    = inr (res_json 500 (error "Nie udało się pobrać itemu")).
Proof. repeat split; reflexivity. Qed.

(** C5, as the code has it: on the list test of the suite, where the
    fetch and the write succeed; on the mocked clients with the store
    down; and for the detail route on the in-memory service holding
    item 1, with the cache answering and with its write rejected. *)
Lemma miss_witness :
  run Mock.step (cacheOrFetch "items:all" fetch_all 30) Scenario.list_test
  = ([Called (redis_get "items:all");
      Called (pg_query SELECT_items []);
      Called (redis_set "items:all" (JSON.stringify (JArr Scenario.fakeRows)) 30)],
     inr (JArr Scenario.fakeRows),
     Mock.fresh)
  ∧ run Mock.step (cacheOrFetch "items:all" fetch_all 30) Scenario.store_down
    = ([Called (redis_get "items:all"); Called (pg_query SELECT_items [])],
       inl Mock.down,
       Mock.fresh)
  ∧ run Mock.step get_items Scenario.list_test
    = ([Called (redis_get "items:all");
        Called (pg_query SELECT_items []);
        Called (redis_set "items:all" (JSON.stringify (JArr Scenario.fakeRows)) 30)],
       inr (res_json 200 (Some (JArr Scenario.fakeRows))),
       Mock.fresh)
  ∧ trace Mem.step (get_item "1") Scenario.one_item
    = [Called (redis_get ("items:" +:+ "1"));
       Called (pg_query SELECT_item [Some (JStr "1")]);
       Called (redis_set ("items:" +:+ "1")
                 (JSON.stringify
                    (JObj [("id", JNum 1); ("name", JStr "A"); ("description", JNull);
                           ("created_at", JStr "2025-01-01T00:00:00.000Z")]))
                 60)]
  ∧ outcome Mem.step (get_item "1") Scenario.one_item
    = inr (res_json 200
             (Some (JObj [("id", JNum 1); ("name", JStr "A"); ("description", JNull);
                          ("created_at", JStr "2025-01-01T00:00:00.000Z")])))
  ∧ trace Mem.step (get_item "1") Case.one_item_write_down
    = [Called (redis_get ("items:" +:+ "1"));
       Called (pg_query SELECT_item [Some (JStr "1")]);
       Called (redis_set ("items:" +:+ "1")
                 (JSON.stringify
                    (JObj [("id", JNum 1); ("name", JStr "A"); ("description", JNull);
                           ("created_at", JStr "2025-01-01T00:00:00.000Z")]))
                 60);
       Logged ("GET /items/" +:+ "1" +:+ " error:") Mem.unreachable]
  ∧ outcome Mem.step (get_item "1") Case.one_item_write_down
    = inr (res_json 500 (error "Nie udało się pobrać itemu")).
Proof.
  destruct (miss_fetches_once_and_populates Mock.step)
    as (Hco & _ & Hlist & _ & _ & _).
  destruct (miss_fetches_once_and_populates Mem.step)
    as (_ & _ & _ & Hone & _ & _).
  split; [|split; [|split; [|split; [|split; [|split]]]]].
  - exact (Hco "items:all" fetch_all 30 Scenario.list_test None eq_refl eq_refl).
  - exact (Hco "items:all" fetch_all 30 Scenario.store_down None eq_refl eq_refl).
  - exact (Hlist Scenario.list_test None eq_refl eq_refl).
  - exact (f_equal (λ r, r.1.1) (Hone "1" Scenario.one_item None eq_refl eq_refl)).
  - exact (f_equal (λ r, r.1.2) (Hone "1" Scenario.one_item None eq_refl eq_refl)).
  - exact (f_equal (λ r, r.1.1)
             (Hone "1" Case.one_item_write_down None eq_refl eq_refl)).
  - exact (f_equal (λ r, r.1.2)
             (Hone "1" Case.one_item_write_down None eq_refl eq_refl)).
Defined.

(** C8 on the mocked clients, whose query resolves to no row and a row
    count of 0 by default. *)
Lemma not_found_witness :
  (run Mock.step (put_item "999" Scenario.named) Mock.fresh
   = ([Called (pg_query UPDATE_item
                 [Some (JStr "A"); Some (js_or (Some (JStr "")) JNull);
                  Some (JStr "999")])],
      inr (res_json 404 (error "Item nie istnieje")),
      Mock.fresh)
   ∧ count is_del (trace Mock.step (put_item "999" Scenario.named) Mock.fresh) = 0%nat)
  ∧ (run Mock.step (delete_item "999") Mock.fresh
     = ([Called (pg_query DELETE_item [Some (JStr "999")])],
        inr (res_json 404 (error "Item nie znaleziony")),
        Mock.fresh)
     ∧ count is_del (trace Mock.step (delete_item "999") Mock.fresh) = 0%nat).
Proof.
  destruct (not_found_skips_invalidation Mock.step) as (Hput & Hdel).
  split.
  - apply (Hput "999" Scenario.named Mock.fresh {| rows := []; rowCount := 0 |});
      reflexivity.
  - apply (Hdel "999" Mock.fresh {| rows := []; rowCount := 0 |}); reflexivity.
Defined.

(** C9 on successful runs of the three write routes. *)
Lemma invalidation_witness :
  trace Mem.step (post_items Scenario.named) Mem.empty
  = [Called (pg_query INSERT_item [Some (JStr "A"); Some JNull]);
     Called (redis_del "items:all")]
  ∧ trace Mem.step (put_item "1" Scenario.named) Scenario.one_item
    = [Called (pg_query UPDATE_item [Some (JStr "A"); Some JNull; Some (JStr "1")]);
       Called (redis_del "items:all"); Called (redis_del ("items:" +:+ "1"))]
  ∧ trace Mock.step (delete_item "5") Scenario.one_row
    = [Called (pg_query DELETE_item [Some (JStr "5")]);
       Called (redis_del "items:all"); Called (redis_del ("items:" +:+ "5"))].
Proof.
  destruct (invalidation_follows_commit Mem.step) as (Hpost & Hput & _).
  destruct (invalidation_follows_commit Mock.step) as (_ & _ & Hdel).
  split; [|split].
  - eapply (proj2 (Hpost Scenario.named Mem.empty)); reflexivity.
  - eapply (proj2 (Hput "1" Scenario.named Scenario.one_item)); reflexivity.
  - eapply (proj2 (Hdel "5" Scenario.one_row)); reflexivity.
Defined.

(** C10 for a body whose description is the empty string. *)
Lemma falsy_description_witness :
  truthy' (field "name" Scenario.named) = true
  ∧ truthy' (field "description" Scenario.named) = false
  ∧ (∃ it : Mem.item,
        outcome Mem.step (post_items Scenario.named) Mem.empty
        = inr (res_json 201 (Some (Mem.row it)))
        ∧ Mem.item_description it = None
        ∧ prop "description" (Mem.row it) = Some JNull
        ∧ Mem.table (after Mem.step (post_items Scenario.named) Mem.empty)
          = Mem.table Mem.empty ++ [it])
  ∧ (∃ it : Mem.item,
        outcome Mem.step (put_item "1" Scenario.named) Scenario.one_item
        = inr (res_json 200 (Some (Mem.row it)))
        ∧ Mem.item_id it = 1
        ∧ Mem.item_description it = None
        ∧ In it (Mem.table (after Mem.step (put_item "1" Scenario.named) Scenario.one_item))
        ∧ ∀ it' : Mem.item,
            In it' (Mem.table
                      (after Mem.step (put_item "1" Scenario.named) Scenario.one_item)) →
            Mem.item_id it' = 1 → Mem.item_description it' = None).
Proof.
  split; [reflexivity|]. split; [reflexivity|].
  destruct (falsy_description_is_null Scenario.named eq_refl eq_refl)
    as (_ & Hpost & Hput).
  split.
  - apply Hpost; reflexivity.
  - apply (Hput "1" 1 Scenario.one_item); reflexivity.
Defined.

(** ** The scenarios of the test suites *)

(** GET /health with both clients answering: 200 and both reachable. *)
Example health_test_passes :
  run Mock.step get_health Mock.fresh
  = ([Called (pg_query SELECT_1 []); Called redis_ping],
     inr (res_json 200
            (Some (JObj [("status", JStr "OK"); ("postgres", JStr "reachable");
                         ("redis", JStr "reachable")]))),
     Mock.fresh).
Proof. reflexivity. Qed.

(** GET /items with an empty cache: the rows of the store are answered
    and written under [items:all] with expiry 30. *)
Example list_test_passes :
  run Mock.step get_items Scenario.list_test
  = ([Called (redis_get "items:all");
      Called (pg_query SELECT_items []);
      Called (redis_set "items:all" (JSON.stringify (JArr Scenario.fakeRows)) 30)],
     inr (res_json 200 (Some (JArr Scenario.fakeRows))),
     Mock.fresh).
Proof. reflexivity. Qed.

(** * Further properties of the routes *)

(** ** The health route *)

Section Health.

Context {W : Type}.
Variable step : ∀ o : op, W → (exn + reply o) * W.

Lemma run_get_health (w : W) :
  run step get_health w =
  let probe := pg_query SELECT_1 [] in
  let w1 := (step probe w).2 in
  let w2 := (step redis_ping w1).2 in
  match (step probe w).1 with
  | inl e =>
    ([Called probe; Logged "Błąd health check:" e], inr (res_json 500 (health_error e)), w1)
  | inr _ =>
    match (step redis_ping w1).1 with
    | inl e =>
      ([Called probe; Called redis_ping; Logged "Błąd health check:" e],
       inr (res_json 500 (health_error e)), w2)
    | inr _ => ([Called probe; Called redis_ping], inr (res_json 200 health_ok), w2)
    end
  end.
Proof.
  unfold get_health. simpl.
  destruct (step (pg_query SELECT_1 []) w) as [[e|r] w1]; simpl; [reflexivity|].
  destruct (step redis_ping w1) as [[e|pong] w2]; reflexivity.
Qed.

(** X1. When the probe query and the ping both resolve, whatever they
    resolve to, the health route answers 200 with all three fields of
    the healthy body; it makes these two calls and logs nothing. *)
Theorem health_ok_when_both_resolve (w : W) (r : QueryResult) (pong : string) :
  (step (pg_query SELECT_1 []) w).1 = inr r →
  (step redis_ping (step (pg_query SELECT_1 []) w).2).1 = inr pong →
  run step get_health w
  = ([Called (pg_query SELECT_1 []); Called redis_ping],
     inr (res_json 200 health_ok),
     (step redis_ping (step (pg_query SELECT_1 []) w).2).2).
Proof.
  intros Hq Hp. rewrite run_get_health. cbv zeta. rewrite Hq, Hp. reflexivity.
Qed.

(** X2. The health route probes the store first.  When the probe
    query is rejected the cache is not pinged; when the query resolves
    and the ping is rejected, that error is the one reported.  Either
    way the route logs the error and answers 500 with the message of
    the error in the body. *)
Theorem health_reports_first_failure :
  (∀ (w : W) (e : exn),
      (step (pg_query SELECT_1 []) w).1 = inl e →
      run step get_health w
      = ([Called (pg_query SELECT_1 []); Logged "Błąd health check:" e],
         inr (res_json 500 (health_error e)),
         (step (pg_query SELECT_1 []) w).2))
  ∧ (∀ (w : W) (r : QueryResult) (e : exn),
        (step (pg_query SELECT_1 []) w).1 = inr r →
        (step redis_ping (step (pg_query SELECT_1 []) w).2).1 = inl e →
        run step get_health w
        = ([Called (pg_query SELECT_1 []); Called redis_ping;
            Logged "Błąd health check:" e],
           inr (res_json 500 (health_error e)),
           (step redis_ping (step (pg_query SELECT_1 []) w).2).2)).
Proof.
  split.
  - intros w e Hq. rewrite run_get_health. cbv zeta. rewrite Hq. reflexivity.
  - intros w r e Hq Hp. rewrite run_get_health. cbv zeta. rewrite Hq, Hp. reflexivity.
Qed.

End Health.

(** ** The answers of the routes *)

Section Answers.

Context {W : Type}.
Variable step : ∀ o : op, W → (exn + reply o) * W.

Ltac cases :=
  repeat match goal with
         | |- context [match (step ?o ?w).1 with _ => _ end] =>
           destruct (step o w).1 eqn:?
         | |- context [match present ?c with _ => _ end] => destruct (present c) eqn:?
         | |- context [match JSON.parse ?t with _ => _ end] =>
           destruct (JSON.parse t) eqn:?
         | |- context [JSON.parse ?t] => destruct (JSON.parse t) eqn:?
         | |- context [if truthy ?v then _ else _] => destruct (truthy v) eqn:?
         | |- context [match rows ?r with _ => _ end] => destruct (rows r) eqn:?
         | |- context [if rowCount ?r =? 0 then _ else _] =>
           destruct (rowCount r =? 0) eqn:?
         end.

(** The complete runs of the two read routes. *)
Lemma run_get_items_cases (w : W) :
  run step get_items w =
  let read := redis_get "items:all" in
  let select := pg_query SELECT_items [] in
  let w1 := (step read w).2 in
  let w2 := (step select w1).2 in
  let failed := res_json 500 (error "Nie udało się pobrać listy itemów") in
  let label := "GET /items error:" in
  match (step read w).1 with
  | inl e => ([Called read; Logged label e], inr failed, w1)
  | inr cached =>
    match present cached with
    | Some text =>
      match JSON.parse text with
      | inl e => ([Called read; Logged label e], inr failed, w1)
      | inr items => ([Called read], inr (res_json 200 (Some items)), w1)
      end
    | None =>
      match (step select w1).1 with
      | inl e => ([Called read; Called select; Logged label e], inr failed, w2)
      | inr r =>
        let write := redis_set "items:all" (JSON.stringify (JArr (rows r))) 30 in
        match (step write w2).1 with
        | inl e =>
          ([Called read; Called select; Called write; Logged label e],
           inr failed, (step write w2).2)
        | inr _ =>
          ([Called read; Called select; Called write],
           inr (res_json 200 (Some (JArr (rows r)))), (step write w2).2)
        end
      end
    end
  end.
Proof.
  rewrite run_get_items, run_cacheOrFetch, run_fetch_all. cbv zeta.
  cases; reflexivity.
Qed.

Lemma run_get_item_cases (id : string) (w : W) :
  run step (get_item id) w =
  let read := redis_get ("items:" +:+ id) in
  let select := pg_query SELECT_item [Some (JStr id)] in
  let w1 := (step read w).2 in
  let w2 := (step select w1).2 in
  let failed := res_json 500 (error "Nie udało się pobrać itemu") in
  let label := "GET /items/" +:+ id +:+ " error:" in
  let answer (item : value) :=
      if truthy item then res_json 200 (Some item)
      else res_json 404 (error "Item nie znaleziony") in
  match (step read w).1 with
  | inl e => ([Called read; Logged label e], inr failed, w1)
  | inr cached =>
    match present cached with
    | Some text =>
      match JSON.parse text with
      | inl e => ([Called read; Logged label e], inr failed, w1)
      | inr item => ([Called read], inr (answer item), w1)
      end
    | None =>
      match (step select w1).1 with
      | inl e => ([Called read; Called select; Logged label e], inr failed, w2)
      | inr r =>
        let item := js_or (rows r !! 0%nat) JNull in
        let write := redis_set ("items:" +:+ id) (JSON.stringify item) 60 in
        match (step write w2).1 with
        | inl e =>
          ([Called read; Called select; Called write; Logged label e],
           inr failed, (step write w2).2)
        | inr _ =>
          ([Called read; Called select; Called write], inr (answer item),
           (step write w2).2)
        end
      end
    end
  end.
Proof.
  rewrite run_get_item, run_cacheOrFetch, run_fetch_one. cbv zeta.
  cases; reflexivity.
Qed.

Ltac answer :=
  cbv zeta; cases; cbn [fst snd];
  try (eexists; split; [reflexivity|simpl; tauto]).

(** The create and replace handlers from their first line: a body
    that is [undefined] or [null] makes the destructuring throw before
    anything else happens; any other body is handled as its field
    list. *)
Lemma run_post_items_handler (req_body : jsval) (w : W) :
  run step (post_items_handler req_body) w
  = match destructure req_body with
    | inl e => ([], inl e, w)
    | inr body => run step (post_items body) w
    end.
Proof.
  unfold post_items_handler. rewrite run_bind, run_lift.
  destruct (destructure req_body) as [e|body]; [reflexivity|].
  destruct (run step (post_items body) w) as [[tr r] w']. reflexivity.
Qed.

Lemma run_put_item_handler (id : string) (req_body : jsval) (w : W) :
  run step (put_item_handler id req_body) w
  = match destructure req_body with
    | inl e => ([], inl e, w)
    | inr body => run step (put_item id body) w
    end.
Proof.
  unfold put_item_handler. rewrite run_bind, run_lift.
  destruct (destructure req_body) as [e|body]; [reflexivity|].
  destruct (run step (put_item id body) w) as [[tr r] w']. reflexivity.
Qed.

Lemma post_items_answers (body : list (string * value)) (w : W) :
  ∃ resp, (run step (post_items body) w).1.2 = inr resp
          ∧ In (status resp) [201; 400; 500].
Proof.
  destruct (truthy' (field "name" body)) eqn:Hname.
  - rewrite (run_post_items step body w Hname). answer.
  - rewrite (run_post_items_invalid step body w Hname). answer.
Qed.

Lemma put_item_answers (id : string) (body : list (string * value)) (w : W) :
  ∃ resp, (run step (put_item id body) w).1.2 = inr resp
          ∧ In (status resp) [200; 400; 404; 500].
Proof.
  destruct (truthy' (field "name" body)) eqn:Hname.
  - rewrite (run_put_item step id body w Hname). answer.
  - rewrite (run_put_item_invalid step id body w Hname). answer.
Qed.

(** X5. In every environment the health, list, detail and delete
    routes answer: no run ends with an error thrown out of the handler,
    and the status is 200 or 500 for health and list, 200, 404 or 500
    for detail, and 204, 404 or 500 for delete.  The create and replace
    handlers answer as well (201, 400 or 500, and 200, 400, 404 or 500)
    unless [req.body] is [undefined] or [null]: then the destructuring
    in their first line throws a TypeError out of the handler, before
    any call and with nothing logged or answered. *)
Theorem routes_answer_unless_body_is_missing (w : W) :
  (∃ resp, outcome step get_health w = inr resp ∧ In (status resp) [200; 500])
  ∧ (∃ resp, outcome step get_items w = inr resp ∧ In (status resp) [200; 500])
  ∧ (∀ id,
        ∃ resp, outcome step (get_item id) w = inr resp
                ∧ In (status resp) [200; 404; 500])
  ∧ (∀ id,
        ∃ resp, outcome step (delete_item id) w = inr resp
                ∧ In (status resp) [204; 404; 500])
  ∧ (∀ req_body : jsval,
        if nullish req_body
        then ∃ m, run step (post_items_handler req_body) w = ([], inl (TypeError m), w)
        else ∃ resp, outcome step (post_items_handler req_body) w = inr resp
                     ∧ In (status resp) [201; 400; 500])
  ∧ (∀ (id : string) (req_body : jsval),
        if nullish req_body
        then ∃ m, run step (put_item_handler id req_body) w
                  = ([], inl (TypeError m), w)
        else ∃ resp, outcome step (put_item_handler id req_body) w = inr resp
                     ∧ In (status resp) [200; 400; 404; 500]).
Proof.
  unfold outcome. repeat apply conj.
  - rewrite run_get_health. answer.
  - rewrite run_get_items_cases. answer.
  - intros id. rewrite run_get_item_cases. answer.
  - intros id. rewrite run_delete_item. answer.
  - intros req_body. rewrite run_post_items_handler.
    destruct req_body as [[ | b | n | t | vs | fields]|]; cbn [nullish destructure];
      try (eexists; reflexivity); apply post_items_answers.
  - intros id req_body. rewrite run_put_item_handler.
    destruct req_body as [[ | b | n | t | vs | fields]|]; cbn [nullish destructure];
      try (eexists; reflexivity); apply put_item_answers.
Qed.

Ltac judge :=
  cbv zeta; cases; cbn [fst snd];
  intros resp Hresp; injection Hresp as <-; simpl; auto.

(** X6. For the five item routes, an answer with status 500 always has
    the fixed message of the route as its body, whatever the error was,
    and goes with exactly one line on [console.error]; an answer with
    any other status goes with none. *)
Theorem item_errors_are_logged_and_generic (w : W) :
  (∀ resp,
      outcome step get_items w = inr resp →
      if status resp =? 500
      then resp = res_json 500 (error "Nie udało się pobrać listy itemów")
           ∧ count is_log (trace step get_items w) = 1%nat
      else count is_log (trace step get_items w) = 0%nat)
  ∧ (∀ body resp,
        outcome step (post_items body) w = inr resp →
        if status resp =? 500
        then resp = res_json 500 (error "Nie udało się utworzyć nowego itemu")
             ∧ count is_log (trace step (post_items body) w) = 1%nat
        else count is_log (trace step (post_items body) w) = 0%nat)
  ∧ (∀ id resp,
        outcome step (get_item id) w = inr resp →
        if status resp =? 500
        then resp = res_json 500 (error "Nie udało się pobrać itemu")
             ∧ count is_log (trace step (get_item id) w) = 1%nat
        else count is_log (trace step (get_item id) w) = 0%nat)
  ∧ (∀ id body resp,
        outcome step (put_item id body) w = inr resp →
        if status resp =? 500
        then resp = res_json 500 (error "Nie udało się zaktualizować itemu")
             ∧ count is_log (trace step (put_item id body) w) = 1%nat
        else count is_log (trace step (put_item id body) w) = 0%nat)
  ∧ (∀ id resp,
        outcome step (delete_item id) w = inr resp →
        if status resp =? 500
        then resp = res_json 500 (error "Nie udało się usunąć itemu")
             ∧ count is_log (trace step (delete_item id) w) = 1%nat
        else count is_log (trace step (delete_item id) w) = 0%nat).
Proof.
  unfold outcome, trace. repeat apply conj.
  - rewrite run_get_items_cases. judge.
  - intros body. destruct (truthy' (field "name" body)) eqn:Hname.
    + rewrite (run_post_items step body w Hname). judge.
    + rewrite (run_post_items_invalid step body w Hname). judge.
  - intros id. rewrite run_get_item_cases. judge.
  - intros id body. destruct (truthy' (field "name" body)) eqn:Hname.
    + rewrite (run_put_item step id body w Hname). judge.
    + rewrite (run_put_item_invalid step id body w Hname). judge.
  - intros id. rewrite run_delete_item. judge.
Qed.

(** X3. The create and replace routes answer 400 exactly when [name]
    is falsy (missing, [null], empty, [0] or [false]), and then no call
    at all is made on the store or the cache. *)
Theorem name_is_validated_before_any_call (body : list (string * value)) (w : W) :
  (truthy' (field "name" body) = false →
   run step (post_items body) w = ([], inr (res_json 400 (error name_required)), w)
   ∧ ∀ id, run step (put_item id body) w
           = ([], inr (res_json 400 (error name_required)), w))
  ∧ (truthy' (field "name" body) = true →
     (∀ resp, outcome step (post_items body) w = inr resp → status resp ≠ 400)
     ∧ (∀ id resp, outcome step (put_item id body) w = inr resp → status resp ≠ 400)).
Proof.
  split; intros Hname.
  - split; [|intros id].
    + apply run_post_items_invalid, Hname.
    + apply run_put_item_invalid, Hname.
  - unfold outcome. split; [|intros id].
    + rewrite (run_post_items step body w Hname). cbv zeta. cases; cbn [fst snd];
        intros resp Hresp; injection Hresp as <-; simpl; discriminate.
    + rewrite (run_put_item step id body w Hname). cbv zeta. cases; cbn [fst snd];
        intros resp Hresp; injection Hresp as <-; simpl; discriminate.
Qed.

(** X4. When the store rejects the statement of a write route, the
    route logs the error once and answers 500 with its fixed message;
    the statement is its only call, so nothing is deleted from the
    cache. *)
Theorem store_failure_on_write_answers_500 :
  (∀ (body : list (string * value)) (w : W) (e : exn),
      truthy' (field "name" body) = true →
      (step (pg_query INSERT_item
               [field "name" body; Some (js_or (field "description" body) JNull)])
            w).1 = inl e →
      trace step (post_items body) w
      = [Called (pg_query INSERT_item
                   [field "name" body;
                    Some (js_or (field "description" body) JNull)]);
         Logged "POST /items error:" e]
      ∧ outcome step (post_items body) w
        = inr (res_json 500 (error "Nie udało się utworzyć nowego itemu")))
  ∧ (∀ (id : string) (body : list (string * value)) (w : W) (e : exn),
        truthy' (field "name" body) = true →
        (step (pg_query UPDATE_item
                 [field "name" body; Some (js_or (field "description" body) JNull);
                  Some (JStr id)]) w).1 = inl e →
        trace step (put_item id body) w
        = [Called (pg_query UPDATE_item
                     [field "name" body;
                      Some (js_or (field "description" body) JNull);
                      Some (JStr id)]);
           Logged ("PUT /items/" +:+ id +:+ " error:") e]
        ∧ outcome step (put_item id body) w
          = inr (res_json 500 (error "Nie udało się zaktualizować itemu")))
  ∧ (∀ (id : string) (w : W) (e : exn),
        (step (pg_query DELETE_item [Some (JStr id)]) w).1 = inl e →
        trace step (delete_item id) w
        = [Called (pg_query DELETE_item [Some (JStr id)]);
           Logged ("DELETE /items/" +:+ id +:+ " error:") e]
        ∧ outcome step (delete_item id) w
          = inr (res_json 500 (error "Nie udało się usunąć itemu"))).
Proof.
  unfold trace, outcome. split; [|split].
  - intros body w e Hname Hq. rewrite (run_post_items step body w Hname).
    cbv zeta. rewrite Hq. split; reflexivity.
  - intros id body w e Hname Hq. rewrite (run_put_item step id body w Hname).
    cbv zeta. rewrite Hq. split; reflexivity.
  - intros id w e Hq. rewrite run_delete_item. cbv zeta. rewrite Hq.
    split; reflexivity.
Qed.

(** X7. When the cache holds a non-empty text that [JSON.parse]
    rejects, the coordinator fails with the SyntaxError after the read
    alone: the fetch function is not run and the entry is neither
    rewritten nor deleted.  The list and detail routes log the error
    and answer 500. *)
Theorem unparsable_entry_fails_the_read :
  (∀ (key : string) (fetchFn : prog value) (ttl : Z) (w : W) (text : string) (e : exn),
      (step (redis_get key) w).1 = inr (Some text) →
      text ≠ "" →
      JSON.parse text = inl e →
      run step (cacheOrFetch key fetchFn ttl) w
      = ([Called (redis_get key)], inl e, (step (redis_get key) w).2))
  ∧ (∀ (w : W) (text : string) (e : exn),
        (step (redis_get "items:all") w).1 = inr (Some text) →
        text ≠ "" →
        JSON.parse text = inl e →
        run step get_items w
        = ([Called (redis_get "items:all"); Logged "GET /items error:" e],
           inr (res_json 500 (error "Nie udało się pobrać listy itemów")),
           (step (redis_get "items:all") w).2))
  ∧ (∀ (id : string) (w : W) (text : string) (e : exn),
        (step (redis_get ("items:" +:+ id)) w).1 = inr (Some text) →
        text ≠ "" →
        JSON.parse text = inl e →
        run step (get_item id) w
        = ([Called (redis_get ("items:" +:+ id));
            Logged ("GET /items/" +:+ id +:+ " error:") e],
           inr (res_json 500 (error "Nie udało się pobrać itemu")),
           (step (redis_get ("items:" +:+ id)) w).2)).
Proof.
  split; [|split].
  - intros key fetchFn ttl w text e Hget Hne Hparse.
    rewrite run_cacheOrFetch, Hget, (present_Some _ text eq_refl Hne), Hparse.
    reflexivity.
  - intros w text e Hget Hne Hparse.
    rewrite run_get_items_cases. cbv zeta.
    rewrite Hget, (present_Some _ text eq_refl Hne), Hparse. reflexivity.
  - intros id w text e Hget Hne Hparse.
    rewrite run_get_item_cases. cbv zeta.
    rewrite Hget, (present_Some _ text eq_refl Hne), Hparse. reflexivity.
Qed.

(** X8. An empty cached text counts as a miss: the fetch function is
    run, and when it succeeds its serialized result is written over the
    entry. *)
Theorem empty_text_is_a_miss
    (key : string) (fetchFn : prog value) (ttl : Z) (w : W) (result : value) :
  (step (redis_get key) w).1 = inr (Some "") →
  outcome step fetchFn (step (redis_get key) w).2 = inr result →
  trace step (cacheOrFetch key fetchFn ttl) w
  = Called (redis_get key)
      :: trace step fetchFn (step (redis_get key) w).2
      ++ [Called (redis_set key (JSON.stringify result) ttl)].
Proof.
  intros Hget Hfetch. unfold trace at 1.
  rewrite (run_miss step key fetchFn ttl w (Some "") Hget eq_refl), Hfetch.
  reflexivity.
Qed.

(** X9. On a hit the cached value alone decides the answer, with no
    query: the list route answers 200 with the parsed value, whatever
    its shape; the detail route answers 200 with it when it is truthy
    and 404 when it is falsy. *)
Theorem cached_value_decides_the_answer :
  (∀ (w : W) (text : string) (v : value),
      (step (redis_get "items:all") w).1 = inr (Some text) →
      JSON.parse text = inr v →
      run step get_items w
      = ([Called (redis_get "items:all")], inr (res_json 200 (Some v)),
         (step (redis_get "items:all") w).2))
  ∧ (∀ (id : string) (w : W) (text : string) (v : value),
        (step (redis_get ("items:" +:+ id)) w).1 = inr (Some text) →
        JSON.parse text = inr v →
        run step (get_item id) w
        = ([Called (redis_get ("items:" +:+ id))],
           inr (if truthy v then res_json 200 (Some v)
                else res_json 404 (error "Item nie znaleziony")),
           (step (redis_get ("items:" +:+ id)) w).2)).
Proof.
  split.
  - intros w text v Hget Hparse. rewrite run_get_items_cases. cbv zeta.
    rewrite Hget, (parsed_present text v Hparse), Hparse. reflexivity.
  - intros id w text v Hget Hparse. rewrite run_get_item_cases. cbv zeta.
    rewrite Hget, (parsed_present text v Hparse), Hparse. reflexivity.
Qed.

(** X10. What a miss writes is served as it was written: when the
    fetch has succeeded, the last call of the coordinator is the write
    of the serialized result under the key, and any later call of the
    coordinator whose read resolves to that text is a hit, whatever its
    own fetch function and expiry: it returns, after the read alone, a
    value whose serialization is again that text.  So a hit on the
    entry answers with the same JSON as the miss that wrote it. *)
Theorem written_entry_is_served_as_written
    (key : string) (fetchFn : prog value) (ttl : Z) (w : W)
    (cached : option string) (result : value) :
  (step (redis_get key) w).1 = inr cached →
  present cached = None →
  outcome step fetchFn (step (redis_get key) w).2 = inr result →
  last (trace step (cacheOrFetch key fetchFn ttl) w)
  = Some (Called (redis_set key (JSON.stringify result) ttl))
  ∧ ∀ (fetchFn' : prog value) (ttl' : Z) (w' : W),
      (step (redis_get key) w').1 = inr (Some (JSON.stringify result)) →
      ∃ v : value,
        run step (cacheOrFetch key fetchFn' ttl') w'
        = ([Called (redis_get key)], inr v, (step (redis_get key) w').2)
        ∧ JSON.stringify v = JSON.stringify result.
Proof.
  intros Hget Hmiss Hfetch. split.
  - unfold trace.
    rewrite (run_miss step key fetchFn ttl w cached Hget Hmiss), Hfetch.
    cbv zeta. cbn [fst].
    change (Called (redis_get key) :: ?l ++ ?x) with ((Called (redis_get key) :: l) ++ x).
    apply last_snoc.
  - intros fetchFn' ttl' w' Hget'. exists result. split; [|reflexivity].
    rewrite run_cacheOrFetch, Hget'.
    rewrite (parsed_present _ _ (parse_stringify result)), parse_stringify.
    reflexivity.
Qed.

Ltac confined :=
  cbv zeta; cases; cbn [fst snd];
  repeat constructor; simpl; intros; congruence.

(** X11. The read routes only read: no run of the list or detail
    route deletes from the cache or sends a statement that changes the
    table, and every call it makes on the cache is for its own key,
    [items:all] or [items:<id>]. *)
Theorem read_routes_only_read (w : W) :
  Forall (λ ev, is_del ev = false
                ∧ is_mutation ev = false
                ∧ ∀ k, cache_key ev = Some k → k = "items:all")
         (trace step get_items w)
  ∧ ∀ id : string,
      Forall (λ ev, is_del ev = false
                    ∧ is_mutation ev = false
                    ∧ ∀ k, cache_key ev = Some k → k = "items:" +:+ id)
             (trace step (get_item id) w).
Proof.
  unfold trace. split; [|intros id].
  - rewrite run_get_items_cases. confined.
  - rewrite run_get_item_cases. confined.
Qed.

Ltac own_statement :=
  cbv zeta; cases; cbn [fst snd];
  repeat constructor; simpl; intros; solve [congruence | reflexivity].

(** X12. The write routes never read the cache and never write an
    entry to it, and each sends no statement but its own, at most once:
    the create route its INSERT with the name and the description or
    [null], the replace route its UPDATE with these and the id, the
    delete route its DELETE with the id. *)
Theorem write_routes_never_read_or_fill_the_cache (w : W) :
  (∀ body,
      Forall (λ ev, is_get ev = false ∧ is_set ev = false
                    ∧ (is_query ev = true →
                       ev = Called (pg_query INSERT_item
                                      [field "name" body;
                                       Some (js_or (field "description" body) JNull)])))
             (trace step (post_items body) w)
      ∧ (count is_query (trace step (post_items body) w) ≤ 1)%nat)
  ∧ (∀ id body,
        Forall (λ ev, is_get ev = false ∧ is_set ev = false
                      ∧ (is_query ev = true →
                         ev = Called (pg_query UPDATE_item
                                        [field "name" body;
                                         Some (js_or (field "description" body) JNull);
                                         Some (JStr id)])))
               (trace step (put_item id body) w)
        ∧ (count is_query (trace step (put_item id body) w) ≤ 1)%nat)
  ∧ (∀ id,
        Forall (λ ev, is_get ev = false ∧ is_set ev = false
                      ∧ (is_query ev = true →
                         ev = Called (pg_query DELETE_item [Some (JStr id)])))
               (trace step (delete_item id) w)
        ∧ (count is_query (trace step (delete_item id) w) ≤ 1)%nat).
Proof.
  unfold trace. split; [|split].
  - intros body. destruct (truthy' (field "name" body)) eqn:Hname.
    + rewrite (run_post_items step body w Hname).
      split; [own_statement | cbv zeta; cases; simpl; lia].
    + rewrite (run_post_items_invalid step body w Hname).
      split; [constructor | simpl; lia].
  - intros id body. destruct (truthy' (field "name" body)) eqn:Hname.
    + rewrite (run_put_item step id body w Hname).
      split; [own_statement | cbv zeta; cases; simpl; lia].
    + rewrite (run_put_item_invalid step id body w Hname).
      split; [constructor | simpl; lia].
  - intros id. rewrite run_delete_item.
    split; [own_statement | cbv zeta; cases; simpl; lia].
Qed.

End Answers.

(** ** Reading after writing, on the in-memory service *)

Section InMemoryWrites.

Import Mem.

(** A statement changes neither the cache, nor the clock, nor the fault
    schedules. *)
Lemma query_keeps_cache (text : sql) (params : list jsval) (w : world) :
  cache (query text params w).2 = cache w
  ∧ now (query text params w).2 = now w
  ∧ redis_faults (query text params w).2 = redis_faults w
  ∧ pg_faults (query text params w).2 = pg_faults w.
Proof.
  unfold query. repeat case_match; cbn; auto.
Qed.

(** The world after a statement sent with no fault pending. *)
Lemma step_query_keeps_cache (text : sql) (params : list jsval) (w : world) :
  pg_faults w = [] →
  cache (Mem.step (pg_query text params) w).2 = cache w
  ∧ now (Mem.step (pg_query text params) w).2 = now w
  ∧ redis_faults (Mem.step (pg_query text params) w).2 = redis_faults w
  ∧ pg_faults (Mem.step (pg_query text params) w).2 = [].
Proof.
  intros Hpg. rewrite step_query by assumption.
  destruct (query_keeps_cache text params w) as (Hc & Hn & Hr & Hp).
  repeat split; [exact Hc|exact Hn|exact Hr|rewrite <- Hpg; exact Hp].
Qed.

(** The list route on a world whose cache holds no live list. *)
Lemma list_fetched_in_memory (w : world) :
  redis_faults w = [] →
  pg_faults w = [] →
  live "items:all" w = None →
  outcome Mem.step get_items w
  = inr (res_json 200 (Some (JArr (map row (newest_first (table w)))))).
Proof.
  intros Hredis Hpg Hlive.
  assert (Mem.step (redis_get "items:all") w = (inr None, w)) as Hget
      by (rewrite step_get, Hlive; [reflexivity|assumption]).
  assert ((Mem.step (redis_get "items:all") w).1 = inr None) as Hmiss
      by (rewrite Hget; reflexivity).
  unfold outcome.
  rewrite (run_get_items_miss Mem.step w None Hmiss eq_refl). cbv zeta.
  rewrite Hget. cbn [fst snd].
  rewrite (step_query _ _ w Hpg). cbn [query fst snd result rows].
  rewrite step_set by (assumption || lia). reflexivity.
Qed.

Lemma live_deleted (key : string) (c : gmap string (string * Z)) (w : world) :
  live key (set_cache (delete key c) w) = None.
Proof. unfold live. cbn [cache set_cache]. rewrite lookup_delete_eq. reflexivity. Qed.

Lemma live_deleted_twice (key key' : string) (c : gmap string (string * Z))
    (w w' : world) :
  live key (set_cache (delete key' (cache (set_cache (delete key c) w))) w') = None.
Proof.
  unfold live. cbn [cache set_cache].
  destruct (decide (key' = key)) as [->|Hne].
  - rewrite lookup_delete_eq. reflexivity.
  - rewrite lookup_delete_ne, lookup_delete_eq by assumption. reflexivity.
Qed.

(** X14. On the in-memory service with no fault pending, the list
    answered right after a successful create, replace or delete is the
    content of the table after that write, newest first, whatever list
    was cached before. *)
Theorem list_after_write_shows_the_table (w : world) :
  redis_faults w = [] →
  pg_faults w = [] →
  (∀ body resp,
      outcome Mem.step (post_items body) w = inr resp →
      status resp = 201 →
      outcome Mem.step get_items (after Mem.step (post_items body) w)
      = inr (res_json 200
               (Some (JArr (map row
                              (newest_first
                                 (table (after Mem.step (post_items body) w))))))))
  ∧ (∀ id body resp,
        outcome Mem.step (put_item id body) w = inr resp →
        status resp = 200 →
        outcome Mem.step get_items (after Mem.step (put_item id body) w)
        = inr (res_json 200
                 (Some (JArr (map row
                                (newest_first
                                   (table (after Mem.step (put_item id body) w))))))))
  ∧ (∀ id resp,
        outcome Mem.step (delete_item id) w = inr resp →
        status resp = 204 →
        outcome Mem.step get_items (after Mem.step (delete_item id) w)
        = inr (res_json 200
                 (Some (JArr (map row
                                (newest_first
                                   (table (after Mem.step (delete_item id) w)))))))).
Proof.
  intros Hredis Hpg. split; [|split].
  - intros body resp Hout Hstatus.
    destruct (truthy' (field "name" body)) eqn:Hname.
    2:{ unfold outcome in Hout.
        rewrite (run_post_items_invalid Mem.step body w Hname) in Hout.
        injection Hout as <-. discriminate. }
    unfold outcome at 1 in Hout. unfold after.
    rewrite (run_post_items Mem.step body w Hname) in *. cbv zeta in *.
    destruct (step_query_keeps_cache INSERT_item
                [field "name" body; Some (js_or (field "description" body) JNull)]
                w Hpg) as (Hc & Hn & Hr & Hp).
    rewrite Hredis in Hr.
    destruct (Mem.step (pg_query INSERT_item _) w).1 as [e|r];
      [injection Hout as <-; discriminate|].
    rewrite step_del in * by exact Hr. cbn [fst snd] in *.
    apply list_fetched_in_memory; [exact Hr|exact Hp|apply live_deleted].
  - intros id body resp Hout Hstatus.
    destruct (truthy' (field "name" body)) eqn:Hname.
    2:{ unfold outcome in Hout.
        rewrite (run_put_item_invalid Mem.step id body w Hname) in Hout.
        injection Hout as <-. discriminate. }
    unfold outcome at 1 in Hout. unfold after.
    rewrite (run_put_item Mem.step id body w Hname) in *. cbv zeta in *.
    destruct (step_query_keeps_cache UPDATE_item
                [field "name" body; Some (js_or (field "description" body) JNull);
                 Some (JStr id)] w Hpg) as (Hc & Hn & Hr & Hp).
    rewrite Hredis in Hr.
    destruct (Mem.step (pg_query UPDATE_item _) w).1 as [e|r];
      [injection Hout as <-; discriminate|].
    destruct (rows r) as [|first rest]; [injection Hout as <-; discriminate|].
    rewrite (step_del "items:all") in * by exact Hr. cbn [fst snd] in *.
    rewrite (step_del ("items:" +:+ id)) in * by exact Hr. cbn [fst snd] in *.
    apply list_fetched_in_memory; [exact Hr|exact Hp|apply live_deleted_twice].
  - intros id resp Hout Hstatus.
    unfold outcome at 1 in Hout. unfold after.
    rewrite (run_delete_item Mem.step id w) in *. cbv zeta in *.
    destruct (step_query_keeps_cache DELETE_item [Some (JStr id)] w Hpg)
      as (Hc & Hn & Hr & Hp).
    rewrite Hredis in Hr.
    destruct (Mem.step (pg_query DELETE_item _) w).1 as [e|r];
      [injection Hout as <-; discriminate|].
    destruct (rowCount r =? 0); [injection Hout as <-; discriminate|].
    rewrite (step_del "items:all") in * by exact Hr. cbn [fst snd] in *.
    rewrite (step_del ("items:" +:+ id)) in * by exact Hr. cbn [fst snd] in *.
    apply list_fetched_in_memory; [exact Hr|exact Hp|apply live_deleted_twice].
Qed.

Lemma filter_removed {A : Type} (f : A → bool) (l : list A) :
  List.filter f (List.filter (λ x, negb (f x)) l) = [].
Proof.
  induction l as [|x l IH]; [reflexivity|]. cbn [List.filter].
  destruct (f x) eqn:Hx; cbn [negb List.filter]; [exact IH|].
  rewrite Hx. exact IH.
Qed.

(** X15. On the in-memory service with no fault pending, the detail
    route answers 404 for an id right after a successful delete of that
    id, even if the item was cached before. *)
Theorem deleted_item_is_not_found (w : world) (id : string) (resp : response) :
  redis_faults w = [] →
  pg_faults w = [] →
  outcome Mem.step (delete_item id) w = inr resp →
  status resp = 204 →
  outcome Mem.step (get_item id) (after Mem.step (delete_item id) w)
  = inr (res_json 404 (error "Item nie znaleziony")).
Proof.
  intros Hredis Hpg Hout Hstatus.
  unfold outcome at 1 in Hout. unfold after.
  rewrite (run_delete_item Mem.step id w) in *. cbv zeta in *.
  rewrite (step_query DELETE_item _ w Hpg) in *.
  unfold query in *. destruct (id_param (Some (JStr id))) as [e|i] eqn:Hid;
    cbn [fst snd] in *; [injection Hout as <-; discriminate|].
  destruct (_ =? 0); [injection Hout as <-; discriminate|].
  rewrite (step_del "items:all") in * by exact Hredis. cbn [fst snd] in *.
  rewrite (step_del ("items:" +:+ id)) in * by exact Hredis. cbn [fst snd] in *.
  clear Hout.
  match goal with |- outcome _ _ ?w3 = _ => set (w3' := w3) end.
  assert (redis_faults w3' = []) as Hr3 by exact Hredis.
  assert (pg_faults w3' = []) as Hp3 by exact Hpg.
  assert (Mem.step (redis_get ("items:" +:+ id)) w3' = (inr None, w3')) as Hget.
  { rewrite step_get by exact Hr3. unfold w3'. rewrite live_deleted. reflexivity. }
  assert ((Mem.step (redis_get ("items:" +:+ id)) w3').1 = inr None) as Hmiss
      by (rewrite Hget; reflexivity).
  unfold outcome.
  rewrite (run_get_item_miss Mem.step id w3' None Hmiss eq_refl). cbv zeta.
  rewrite Hget. cbn [fst snd].
  rewrite (step_query SELECT_item _ w3' Hp3). unfold query. rewrite Hid.
  assert (List.filter (matching i) (table w3') = []) as Htab
      by apply filter_removed.
  cbn [fst snd result rows]. rewrite Htab. cbn [map].
  change (js_or ([] !! 0%nat) JNull) with JNull.
  change (JSON.stringify JNull) with "null".
  rewrite step_set by (assumption || lia). reflexivity.
Qed.

Lemma filter_map_same {A : Type} (f : A → bool) (g : A → A) (l : list A) :
  (∀ x, f (g x) = f x) →
  List.filter f (map g l) = map g (List.filter f l).
Proof.
  intros Hfg. induction l as [|x l IH]; [reflexivity|].
  cbn [map List.filter]. rewrite Hfg. destruct (f x); cbn [map]; rewrite IH; reflexivity.
Qed.

(** X16. On the in-memory service with no fault pending, the detail
    route for an id right after a successful replace of that id answers
    exactly what the replace answered: 200 with the replaced item. *)
Theorem replaced_item_is_served
    (w : world) (id : string) (body : list (string * value)) (resp : response) :
  redis_faults w = [] →
  pg_faults w = [] →
  outcome Mem.step (put_item id body) w = inr resp →
  status resp = 200 →
  outcome Mem.step (get_item id) (after Mem.step (put_item id body) w)
  = inr resp.
Proof.
  intros Hredis Hpg Hout Hstatus.
  destruct (truthy' (field "name" body)) eqn:Hname.
  2:{ unfold outcome in Hout.
      rewrite (run_put_item_invalid Mem.step id body w Hname) in Hout.
      injection Hout as <-. discriminate. }
  unfold outcome at 1 in Hout. unfold after.
  rewrite (run_put_item Mem.step id body w Hname) in *. cbv zeta in *.
  rewrite (step_query UPDATE_item _ w Hpg) in *.
  unfold query in *. destruct (id_param (Some (JStr id))) as [e|i] eqn:Hid;
    cbn [fst snd] in *; [injection Hout as <-; discriminate|].
  destruct (param (field "name" body)) as [n|].
  2:{ destruct (existsb (matching i) (table w)); cbn [fst snd result rows map] in *;
        injection Hout as <-; discriminate. }
  cbn [fst snd result rows] in *.
  set (change := λ it : item,
         if matching i it
         then {| item_id := item_id it; item_name := n;
                 item_description := param (Some (js_or (field "description" body) JNull));
                 item_created_at := item_created_at it |}
         else it) in *.
  destruct (List.filter (matching i) (table w)) as [|first rest] eqn:Hfilter;
    cbn [map] in *; [injection Hout as <-; discriminate|].
  rewrite (step_del "items:all") in * by exact Hredis. cbn [fst snd] in *.
  rewrite (step_del ("items:" +:+ id)) in * by exact Hredis. cbn [fst snd] in *.
  injection Hout as <-.
  match goal with |- outcome _ _ ?w3 = _ => set (w3' := w3) end.
  assert (redis_faults w3' = []) as Hr3 by exact Hredis.
  assert (pg_faults w3' = []) as Hp3 by exact Hpg.
  assert (Mem.step (redis_get ("items:" +:+ id)) w3' = (inr None, w3')) as Hget.
  { rewrite step_get by exact Hr3. unfold w3'. rewrite live_deleted. reflexivity. }
  assert ((Mem.step (redis_get ("items:" +:+ id)) w3').1 = inr None) as Hmiss
      by (rewrite Hget; reflexivity).
  assert (List.filter (matching i) (table w3') = change first :: map change rest)
    as Htab.
  { change (table w3') with (map change (table w)).
    rewrite filter_map_same, Hfilter; [reflexivity|].
    intros x. unfold change. destruct (matching i x) eqn:Hx; [|exact Hx].
    destruct i as [i|]; [exact Hx|discriminate]. }
  unfold outcome.
  rewrite (run_get_item_miss Mem.step id w3' None Hmiss eq_refl). cbv zeta.
  rewrite Hget. cbn [fst snd].
  rewrite (step_query SELECT_item _ w3' Hp3). unfold query. rewrite Hid.
  cbn [fst snd result rows]. rewrite Htab. cbn [map].
  change (js_or ((row (change first) :: ?l) !! 0%nat) JNull) with (row (change first)).
  rewrite step_set by (assumption || lia). reflexivity.
Qed.

End InMemoryWrites.

(** ** The further properties at concrete states *)

(** X1 on the mocked clients with their default answers. *)
Lemma health_ok_witness :
  run Mock.step get_health Mock.fresh
  = ([Called (pg_query SELECT_1 []); Called redis_ping],
     inr (res_json 200 health_ok),
     Mock.fresh).
Proof.
  exact (health_ok_when_both_resolve Mock.step Mock.fresh
           {| rows := []; rowCount := 0 |} "PONG" eq_refl eq_refl).
Defined.

(** X2 with the store down, and with the cache down. *)
Lemma health_failure_witness :
  run Mock.step get_health Scenario.store_down
  = ([Called (pg_query SELECT_1 []); Logged "Błąd health check:" Mock.down],
     inr (res_json 500 (health_error Mock.down)),
     Mock.fresh)
  ∧ run Mock.step get_health Case.ping_down
    = ([Called (pg_query SELECT_1 []); Called redis_ping;
        Logged "Błąd health check:" Mock.down],
       inr (res_json 500 (health_error Mock.down)),
       Mock.fresh).
Proof.
  destruct (health_reports_first_failure Mock.step) as (Hstore & Hcache).
  split.
  - exact (Hstore Scenario.store_down Mock.down eq_refl).
  - exact (Hcache Case.ping_down {| rows := []; rowCount := 0 |} Mock.down
             eq_refl eq_refl).
Defined.

(** X3 for a body without a name, and for a body with one. *)
Lemma validation_witness :
  (run Mock.step (post_items [("description", JStr "d")]) Mock.fresh
   = ([], inr (res_json 400 (error name_required)), Mock.fresh)
   ∧ run Mock.step (put_item "1" [("description", JStr "d")]) Mock.fresh
     = ([], inr (res_json 400 (error name_required)), Mock.fresh))
  ∧ status (res_json 201 undefined) ≠ 400.
Proof.
  split.
  - destruct (proj1 (name_is_validated_before_any_call
                       Mock.step [("description", JStr "d")] Mock.fresh) eq_refl)
      as (Hpost & Hput).
    split; [exact Hpost | exact (Hput "1")].
  - exact (proj1 (proj2 (name_is_validated_before_any_call
                           Mock.step Scenario.named Mock.fresh) eq_refl)
             (res_json 201 undefined) eq_refl).
Defined.

(** X4 with the store down. *)
Lemma store_failure_witness :
  (trace Mock.step (post_items Scenario.named) Scenario.store_down
   = [Called (pg_query INSERT_item [Some (JStr "A"); Some JNull]);
      Logged "POST /items error:" Mock.down]
   ∧ outcome Mock.step (post_items Scenario.named) Scenario.store_down
     = inr (res_json 500 (error "Nie udało się utworzyć nowego itemu")))
  ∧ (trace Mock.step (put_item "1" Scenario.named) Scenario.store_down
     = [Called (pg_query UPDATE_item [Some (JStr "A"); Some JNull; Some (JStr "1")]);
        Logged ("PUT /items/" +:+ "1" +:+ " error:") Mock.down]
     ∧ outcome Mock.step (put_item "1" Scenario.named) Scenario.store_down
       = inr (res_json 500 (error "Nie udało się zaktualizować itemu")))
  ∧ (trace Mock.step (delete_item "1") Scenario.store_down
     = [Called (pg_query DELETE_item [Some (JStr "1")]);
        Logged ("DELETE /items/" +:+ "1" +:+ " error:") Mock.down]
     ∧ outcome Mock.step (delete_item "1") Scenario.store_down
       = inr (res_json 500 (error "Nie udało się usunąć itemu"))).
Proof.
  destruct (store_failure_on_write_answers_500 Mock.step) as (Hpost & Hput & Hdel).
  split; [|split].
  - exact (Hpost Scenario.named Scenario.store_down Mock.down eq_refl eq_refl).
  - exact (Hput "1" Scenario.named Scenario.store_down Mock.down eq_refl eq_refl).
  - exact (Hdel "1" Scenario.store_down Mock.down eq_refl).
Defined.

(** X6 for the list route, with the store answering and with the store
    down. *)
Lemma errors_logged_witness :
  count is_log (trace Mock.step get_items Mock.fresh) = 0%nat
  ∧ count is_log (trace Mock.step get_items Scenario.store_down) = 1%nat.
Proof.
  split.
  - exact (proj1 (item_errors_are_logged_and_generic Mock.step Mock.fresh)
             (res_json 200 (Some (JArr []))) eq_refl).
  - exact (proj2 (proj1 (item_errors_are_logged_and_generic
                           Mock.step Scenario.store_down)
                    (res_json 500 (error "Nie udało się pobrać listy itemów"))
                    eq_refl)).
Defined.

(** X7 for a cached text that is an opening brace alone. *)
Lemma unparsable_entry_witness :
  run Mock.step (cacheOrFetch "items:all" fetch_all 30) Case.cached_garbage
  = ([Called (redis_get "items:all")],
     inl (SyntaxError "Unexpected token in JSON"),
     Mock.fresh)
  ∧ run Mock.step get_items Case.cached_garbage
    = ([Called (redis_get "items:all");
        Logged "GET /items error:" (SyntaxError "Unexpected token in JSON")],
       inr (res_json 500 (error "Nie udało się pobrać listy itemów")),
       Mock.fresh)
  ∧ run Mock.step (get_item "7") Case.cached_garbage
    = ([Called (redis_get ("items:" +:+ "7"));
        Logged ("GET /items/" +:+ "7" +:+ " error:")
               (SyntaxError "Unexpected token in JSON")],
       inr (res_json 500 (error "Nie udało się pobrać itemu")),
       Mock.fresh).
Proof.
  destruct (unparsable_entry_fails_the_read Mock.step) as (Hco & Hlist & Hone).
  split; [|split].
  - apply (Hco "items:all" fetch_all 30 Case.cached_garbage "{");
      [reflexivity | discriminate | reflexivity].
  - apply (Hlist Case.cached_garbage "{");
      [reflexivity | discriminate | reflexivity].
  - apply (Hone "7" Case.cached_garbage "{");
      [reflexivity | discriminate | reflexivity].
Defined.

(** X8 for the list, with an empty text under [items:all]. *)
Lemma empty_text_witness :
  trace Mock.step (cacheOrFetch "items:all" fetch_all 30) Case.cached_empty
  = [Called (redis_get "items:all");
     Called (pg_query SELECT_items []);
     Called (redis_set "items:all" (JSON.stringify (JArr [])) 30)].
Proof.
  exact (empty_text_is_a_miss Mock.step "items:all" fetch_all 30 Case.cached_empty
           (JArr []) eq_refl eq_refl).
Defined.

(** X9 for a cached list, and for a cached [null]. *)
Lemma cached_value_witness :
  run Mock.step get_items Scenario.cached_list
  = ([Called (redis_get "items:all")],
     inr (res_json 200 (Some (JArr [JNum 1; JNum 2]))),
     Mock.fresh)
  ∧ run Mock.step (get_item "7") Case.cached_null
    = ([Called (redis_get ("items:" +:+ "7"))],
       inr (res_json 404 (error "Item nie znaleziony")),
       Mock.fresh).
Proof.
  destruct (cached_value_decides_the_answer Mock.step) as (Hlist & Hone).
  split.
  - apply (Hlist Scenario.cached_list "[1,2]"); reflexivity.
  - exact (Hone "7" Case.cached_null "null" JNull eq_refl eq_refl).
Defined.

(** X5 for a request without a body and for one with a named body. *)
Lemma missing_body_witness :
  (∃ m, run Mock.step (post_items_handler undefined) Mock.fresh
        = ([], inl (TypeError m), Mock.fresh))
  ∧ (∃ resp,
        outcome Mock.step (put_item_handler "1" (Some (JObj Scenario.named))) Mock.fresh
        = inr resp
        ∧ In (status resp) [200; 400; 404; 500]).
Proof.
  destruct (routes_answer_unless_body_is_missing Mock.step Mock.fresh)
    as (_ & _ & _ & _ & Hpost & Hput).
  split.
  - exact (Hpost undefined).
  - exact (Hput "1" (Some (JObj Scenario.named))).
Defined.

(** X10 for the list of the test suite. *)
Lemma written_entry_witness :
  last (trace Mock.step (cacheOrFetch "items:all" fetch_all 30) Scenario.list_test)
  = Some (Called (redis_set "items:all" (JSON.stringify (JArr Scenario.fakeRows)) 30))
  ∧ ∀ (fetchFn' : prog value) (ttl' : Z) (w' : Mock.mocks),
      (Mock.step (redis_get "items:all") w').1
      = inr (Some (JSON.stringify (JArr Scenario.fakeRows))) →
      ∃ v : value,
        run Mock.step (cacheOrFetch "items:all" fetchFn' ttl') w'
        = ([Called (redis_get "items:all")], inr v,
           (Mock.step (redis_get "items:all") w').2)
        ∧ JSON.stringify v = JSON.stringify (JArr Scenario.fakeRows).
Proof.
  exact (written_entry_is_served_as_written Mock.step "items:all" fetch_all 30
           Scenario.list_test None (JArr Scenario.fakeRows)
           eq_refl eq_refl eq_refl).
Defined.

(** X13 on the in-memory service holding one item. *)
Lemma list_cached_witness :
  run Mem.step get_items Scenario.one_item
  = ([Called (redis_get "items:all");
      Called (pg_query SELECT_items []);
      Called (redis_set "items:all"
                (JSON.stringify
                   (JArr (map Mem.row (Mem.newest_first (Mem.table Scenario.one_item)))))
                30)],
     inr (res_json 200
            (Some (JArr (map Mem.row (Mem.newest_first (Mem.table Scenario.one_item)))))),
     Mem.set_cache
       (<["items:all" :=
            (JSON.stringify
               (JArr (map Mem.row (Mem.newest_first (Mem.table Scenario.one_item)))),
             Mem.now Scenario.one_item + 30)]>
          (Mem.cache Scenario.one_item)) Scenario.one_item)
  ∧ (∀ later : Mem.world,
        Mem.cache later = Mem.cache (after Mem.step get_items Scenario.one_item) →
        Mem.redis_faults later = [] →
        Mem.now Scenario.one_item ≤ Mem.now later < Mem.now Scenario.one_item + 30 →
        run Mem.step get_items later
        = ([Called (redis_get "items:all")],
           inr (res_json 200
                  (Some (JArr (map Mem.row
                                 (Mem.newest_first (Mem.table Scenario.one_item)))))),
           later))
  ∧ (∀ later : Mem.world,
        Mem.cache later = Mem.cache (after Mem.step get_items Scenario.one_item) →
        Mem.now Scenario.one_item + 30 ≤ Mem.now later →
        Mem.live "items:all" later = None).
Proof.
  exact (list_is_cached_for_30_seconds Scenario.one_item eq_refl eq_refl eq_refl).
Defined.

(** X14 after a create on the in-memory service whose cache holds the
    empty list. *)
Lemma list_after_write_witness :
  outcome Mem.step get_items
    (after Mem.step (post_items Scenario.named) Case.empty_list_cached)
  = inr (res_json 200
           (Some (JArr (map Mem.row
                          (Mem.newest_first
                             (Mem.table
                                (after Mem.step (post_items Scenario.named)
                                   Case.empty_list_cached))))))).
Proof.
  destruct (list_after_write_shows_the_table Case.empty_list_cached eq_refl eq_refl)
    as (Hpost & _).
  apply (Hpost Scenario.named
               (res_json 201
                  (Some (Mem.row {| Mem.item_id := 1; Mem.item_name := "A";
                                    Mem.item_description := None;
                                    Mem.item_created_at := 1735689600 |}))));
    reflexivity.
Defined.

(** X15 for item 1, cached by a lookup and then deleted. *)
Lemma deleted_item_witness :
  outcome Mem.step (get_item "1")
    (after Mem.step (delete_item "1") Case.one_item_cached)
  = inr (res_json 404 (error "Item nie znaleziony")).
Proof.
  exact (deleted_item_is_not_found Case.one_item_cached "1" (res_end 204)
           eq_refl eq_refl eq_refl eq_refl).
Defined.

(** X16 for item 1, cached by a lookup and then renamed. *)
Lemma replaced_item_witness :
  outcome Mem.step (get_item "1")
    (after Mem.step (put_item "1" [("name", JStr "B")]) Case.one_item_cached)
  = inr (res_json 200
           (Some (Mem.row {| Mem.item_id := 1; Mem.item_name := "B";
                             Mem.item_description := None;
                             Mem.item_created_at := 1735689600 |}))).
Proof.
  apply (replaced_item_is_served Case.one_item_cached "1" [("name", JStr "B")]);
    reflexivity.
Defined.
